(** * Query builder and join resolver of dsadmin (src/QueryBuilderPage.tsx, src/QueryPage.tsx)

    Strings are JavaScript strings restricted to code units 0..255: each
    [ascii] character is read as the Latin-1 code unit of the same number.
    Numbers are IEEE-754 binary64 values, represented by [spec_float] with
    53 bits of precision and maximal exponent 1024. *)

From Stdlib Require Import ZArith Bool List String Ascii Lia.
From Stdlib Require Import Floats.SpecFloat Numbers.DecimalString.
Import ListNotations.
Open Scope string_scope.

(** ** JavaScript string primitives *)
Module JsString.

(** Characters removed by [String.prototype.trim] and matched by [\s] in a
    regular expression, restricted to code units 0..255: TAB, LF, VT, FF, CR,
    SPACE and NO-BREAK SPACE (0xA0). *)
Definition is_whitespace (c : ascii) : bool :=
  let n := nat_of_ascii c in
  ((9 <=? n) && (n <=? 13))%nat || (n =? 32)%nat || (n =? 160)%nat.

Fixpoint trim_start (s : string) : string :=
  match s with
  | EmptyString => EmptyString
  | String c s' => if is_whitespace c then trim_start s' else s
  end.

Definition trim_end (s : string) : string :=
  string_of_list_ascii (rev (list_ascii_of_string (trim_start
    (string_of_list_ascii (rev (list_ascii_of_string s)))))).

(** [s.trim()] *)
Definition trim (s : string) : string := trim_end (trim_start s).

(** [s.split(sep)] for a one-character separator: always at least one piece. *)
Fixpoint split_aux (sep : ascii) (s : string) (cur : string) : list string :=
  match s with
  | EmptyString => [cur]
  | String c s' =>
      if Ascii.eqb c sep then cur :: split_aux sep s' EmptyString
      else split_aux sep s' (cur ++ String c EmptyString)
  end.

Definition split (sep : ascii) (s : string) : list string := split_aux sep s EmptyString.

(** [xs.join(sep)] *)
Fixpoint join (sep : string) (xs : list string) : string :=
  match xs with
  | [] => EmptyString
  | [x] => x
  | x :: xs' => x ++ sep ++ join sep xs'
  end.

(** [String.prototype.toLowerCase] on code units 0..255: A-Z and
    0xC0-0xDE (except 0xD7) map to the code unit 0x20 above. *)
Definition to_lower_char (c : ascii) : ascii :=
  let n := nat_of_ascii c in
  if ((65 <=? n) && (n <=? 90))%nat || ((192 <=? n) && (n <=? 222) && negb (n =? 215))%nat
  then ascii_of_nat (n + 32) else c.

Fixpoint to_lower (s : string) : string :=
  match s with
  | EmptyString => EmptyString
  | String c s' => String (to_lower_char c) (to_lower s')
  end.

Definition is_digit (c : ascii) : bool :=
  let n := nat_of_ascii c in ((48 <=? n) && (n <=? 57))%nat.

Definition digit_value (c : ascii) : Z := Z.of_nat (nat_of_ascii c - 48).

(** Decimal rendering of a natural number. *)
Definition of_N (n : N) : string := NilEmpty.string_of_uint (N.to_uint n).

End JsString.

(** ** JavaScript numbers: [Number(string)] and [String(number)] *)
Module JsNumber.
Import JsString.
Local Open Scope Z_scope.

Definition prec : Z := 53.
Definition emax : Z := 1024.
Definition number : Type := spec_float.

Definition NaN : number := S754_nan.

(** [Number.isFinite] *)
Definition is_finite (x : number) : bool :=
  match x with S754_zero _ | S754_finite _ _ _ => true | _ => false end.

(** The Number value for the mathematical value (-1)^neg * m * 10^e,
    rounded to nearest, ties to even (with gradual underflow and overflow
    to infinity). Out-of-range exponents are cut off first: m >= 1, so
    e > 400 is above the largest double and e + digits(m) < -400 below half
    the least subnormal. *)
Definition round_decimal (neg : bool) (m : positive) (e : Z) : number :=
  if (400 <? e)%Z then S754_infinity neg
  else if (e + Z.of_nat (String.length (of_N (Npos m))) <? -400)%Z then S754_zero neg
  else if (0 <=? e)%Z then
    let z := (Zpos m * 10 ^ e)%Z in
    binary_normalize prec emax (if neg then Z.opp z else z) 0 neg
  else
    let '(mz, ez, lz) := SFdiv_core_binary prec emax (Zpos m) 0 (10 ^ (- e)) 0 in
    binary_round_aux prec emax neg mz ez lz.

(** Value of a digit in a radix (0-9, then a-z or A-Z for 10..35). *)
Definition digit_in_radix (r : Z) (c : ascii) : option Z :=
  let n := Z.of_nat (nat_of_ascii c) in
  let v := if ((48 <=? n) && (n <=? 57))%Z then n - 48
           else if ((97 <=? n) && (n <=? 122))%Z then n - 87
           else if ((65 <=? n) && (n <=? 90))%Z then n - 55
           else 99 in
  if (v <? r)%Z then Some v else None.

(** Longest prefix of digits in radix [r], accumulated onto [acc];
    returns the value, the number of digits read and the rest. *)
Fixpoint take_digits (r : Z) (l : list ascii) (acc : Z) (n : nat) : Z * nat * list ascii :=
  match l with
  | c :: l' =>
      match digit_in_radix r c with
      | Some v => take_digits r l' (acc * r + v) (S n)
      | None => (acc, n, l)
      end
  | [] => (acc, n, [])
  end.

(** StrUnsignedDecimalLiteral, the whole input: [Some (inl tt)] for
    Infinity, [Some (inr (m, e))] for the value m * 10^e. *)
Definition parse_unsigned_decimal (l : list ascii) : option (unit + (Z * Z)) :=
  if list_eq_dec ascii_dec l (list_ascii_of_string "Infinity") then Some (inl tt)
  else
    let '(ip, ni, r1) := take_digits 10 l 0 0 in
    let '(m, nf, r2) :=
      match r1 with
      | c :: r1' => if Ascii.eqb c "." then take_digits 10 r1' ip 0 else (ip, 0%nat, r1)
      | [] => (ip, 0%nat, r1)
      end in
    if (ni + nf =? 0)%nat then None
    else
      match r2 with
      | [] => Some (inr (m, - Z.of_nat nf))
      | c :: r3 =>
          if Ascii.eqb c "e" || Ascii.eqb c "E" then
            let '(neg, r4) :=
              match r3 with
              | d :: r4 => if Ascii.eqb d "-" then (true, r4)
                           else if Ascii.eqb d "+" then (false, r4) else (false, r3)
              | [] => (false, r3)
              end in
            match take_digits 10 r4 0 0 with
            | (x, S _, []) => Some (inr (m, (if neg then - x else x) - Z.of_nat nf))
            | _ => None
            end
          else None
      end.

Definition finite_of (neg : bool) (m e : Z) : number :=
  match m with
  | Zpos p => round_decimal neg p e
  | _ => S754_zero neg
  end.

(** StrNumericLiteral without its surrounding white space. *)
Definition parse_numeric_literal (l : list ascii) : number :=
  let radix_literal r rest :=
    match take_digits r rest 0 0 with
    | (v, S _, []) => finite_of false v 0
    | _ => NaN
    end in
  match l with
  | c0 :: c1 :: rest =>
      if Ascii.eqb c0 "0" && (Ascii.eqb c1 "x" || Ascii.eqb c1 "X") then radix_literal 16%Z rest
      else if Ascii.eqb c0 "0" && (Ascii.eqb c1 "o" || Ascii.eqb c1 "O") then radix_literal 8%Z rest
      else if Ascii.eqb c0 "0" && (Ascii.eqb c1 "b" || Ascii.eqb c1 "B") then radix_literal 2%Z rest
      else if Ascii.eqb c0 "-" then
        match parse_unsigned_decimal (c1 :: rest) with
        | Some (inl _) => S754_infinity true
        | Some (inr (m, e)) => finite_of true m e
        | None => NaN
        end
      else if Ascii.eqb c0 "+" then
        match parse_unsigned_decimal (c1 :: rest) with
        | Some (inl _) => S754_infinity false
        | Some (inr (m, e)) => finite_of false m e
        | None => NaN
        end
      else
        match parse_unsigned_decimal l with
        | Some (inl _) => S754_infinity false
        | Some (inr (m, e)) => finite_of false m e
        | None => NaN
        end
  | _ =>
      match parse_unsigned_decimal l with
      | Some (inl _) => S754_infinity false
      | Some (inr (m, e)) => finite_of false m e
      | None => NaN
      end
  end.

(** [Number(s)] for a string [s] (StringToNumber): white space only gives +0. *)
Definition of_string (s : string) : number :=
  match list_ascii_of_string (trim s) with
  | [] => S754_zero false
  | l => parse_numeric_literal l
  end.

(** [x === y] on numbers (IEEE equality). *)
Definition eqb (x y : number) : bool := SFeqb x y.

(** Positive value m * 2^e as a fraction num / den. *)
Definition num_den (m : positive) (e : Z) : Z * Z :=
  (Zpos m * 2 ^ Z.max e 0, 2 ^ Z.max (- e) 0).

(** 10^k <= num / den *)
Definition pow10_le (num den k : Z) : bool :=
  if 0 <=? k then 10 ^ k * den <=? num else den <=? num * 10 ^ (- k).

(** floor (log10 (num / den)), searched around a binary estimate. *)
Definition floor_log10 (num den : Z) : Z :=
  let k0 := (Z.log2 num - Z.log2 den) * 30103 / 100000 in
  match List.find (pow10_le num den) [k0 + 2; k0 + 1; k0; k0 - 1; k0 - 2; k0 - 3] with
  | Some k => k
  | None => k0 - 3
  end.

(** num / (den * 10^p) as a fraction. *)
Definition scaled (num den p : Z) : Z * Z :=
  if 0 <=? p then (num, den * 10 ^ p) else (num * 10 ^ (- p), den).

(** |s * 10^p - num / den| as a fraction. *)
Definition distance (num den s p : Z) : Z * Z :=
  let '(a, b) := scaled num den p in (Z.abs (s * b - a), b).

(** Candidates (s, p) with k digits whose value s * 10^p is rounded to x. *)
Definition candidates (x : number) (num den k : Z) : list (Z * Z) :=
  let e10 := floor_log10 num den in
  let at_p p := let '(a, b) := scaled num den p in [(a / b, p); (a / b + 1, p)] in
  List.filter
    (fun '(s, p) =>
       (10 ^ (k - 1) <=? s) && (s <? 10 ^ k) &&
       eqb (round_decimal false (Z.to_pos s) p) x)
    (at_p (e10 - k + 2) ++ at_p (e10 - k + 1) ++ at_p (e10 - k)).

(** The candidate closest to num / den (the first one on a tie). *)
Definition closest (num den : Z) (l : list (Z * Z)) : option (Z * Z) :=
  List.fold_left
    (fun best c =>
       match best with
       | None => Some c
       | Some b =>
           let '(d1, q1) := distance num den (fst c) (snd c) in
           let '(d2, q2) := distance num den (fst b) (snd b) in
           if d1 * q2 <? d2 * q1 then Some c else best
       end) l None.

(** Shortest decimal digits s and exponent p with s * 10^p rounding to x. *)
Fixpoint shortest (fuel : nat) (x : number) (num den k : Z) : option (Z * Z) :=
  match fuel with
  | O => None
  | S f =>
      match closest num den (candidates x num den k) with
      | Some c => Some c
      | None => shortest f x num den (k + 1)
      end
  end.

Fixpoint zeros (n : nat) : string :=
  match n with O => EmptyString | S n' => String "0" (zeros n') end.

(** Layout of Number::toString for digits [ds] (k of them) and
    decimal point position n. *)
Definition layout (ds : string) (n : Z) : string :=
  let k := Z.of_nat (String.length ds) in
  let exp_part :=
    "e" ++ (if n - 1 <? 0 then "-" else "+") ++ of_N (Z.abs_N (n - 1)) in
  if (k <=? n) && (n <=? 21) then ds ++ zeros (Z.to_nat (n - k))
  else if (0 <? n) && (n <=? 21) then
    substring 0 (Z.to_nat n) ds ++ "." ++ substring (Z.to_nat n) (Z.to_nat (k - n)) ds
  else if (-6 <? n) && (n <=? 0) then "0." ++ zeros (Z.to_nat (- n)) ++ ds
  else if k =? 1 then ds ++ exp_part
  else substring 0 1 ds ++ "." ++ substring 1 (Z.to_nat (k - 1)) ds ++ exp_part.

(** [String(x)] for a number x (Number::toString with radix 10). *)
Definition to_string (x : number) : string :=
  match x with
  | S754_nan => "NaN"
  | S754_zero _ => "0"
  | S754_infinity neg => if neg then "-Infinity" else "Infinity"
  | S754_finite neg m e =>
      let '(num, den) := num_den m e in
      let sign := if neg then "-" else "" in
      match shortest 17 (S754_finite false m e) num den 1 with
      | Some (s, p) =>
          let ds := of_N (Z.to_N s) in
          sign ++ layout ds (p + Z.of_nat (String.length ds))
      | None => sign
      end
  end.

(** [a + b], [a / b] and [a < b] on numbers. *)
Definition add (x y : number) : number := SFadd prec emax x y.
Definition div (x y : number) : number := SFdiv prec emax x y.
Definition ltb (x y : number) : bool := SFltb x y.

(** The Number value of a natural number. *)
Definition of_nat (n : nat) : number := finite_of false (Z.of_nat n) 0.

End JsNumber.

(** ** Data model (src/api.ts, as used by the pages) *)

Record PartitionId := { projectId : string; namespaceId : option string }.
Record PathElement := { kind : string; id : option string; name : option string }.
Record Key := { partitionId : PartitionId; path : list PathElement }.

(** A property value on the wire: exactly one of the [...Value] fields. *)
Inductive PropertyValue : Type :=
| nullValue
| booleanValue (b : bool)
| integerValue (s : string)
| doubleValue (d : JsNumber.number)
| timestampValue (s : string)
| keyValue (k : Key)
| stringValue (s : string)
| blobValue (s : string)
| geoPointValue (latitude longitude : option JsNumber.number)
| arrayValue (values : option (list PropertyValue))
| entityValue (properties : list (string * PropertyValue)).

(** A property map (a JavaScript object) as an association list; reading a
    name not present gives [None] ([undefined]). Names inherited from
    [Object.prototype] read as functions, which carry no [...Value] field, so
    every use in the code treats them as absent. *)
Definition Properties := list (string * PropertyValue).

Fixpoint lookup (name : string) (m : Properties) : option PropertyValue :=
  match m with
  | [] => None
  | (n, v) :: m' => if String.eqb n name then Some v else lookup name m'
  end.

(** [m[name] = v]: overwrite in place, or add at the end. *)
Fixpoint set_prop (name : string) (v : PropertyValue) (m : Properties) : Properties :=
  match m with
  | [] => [(name, v)]
  | (n, w) :: m' => if String.eqb n name then (n, v) :: m' else (n, w) :: set_prop name v m'
  end.

Record Entity := { key : Key; properties : option Properties }.

(** Thrown errors: [throw new Error(msg)]. *)
Inductive result (A : Type) : Type :=
| Ok (a : A)
| Err (msg : string).
Arguments Ok {A} a.
Arguments Err {A} msg.

Definition bind {A B} (m : result A) (k : A -> result B) : result B :=
  match m with Ok a => k a | Err e => Err e end.
Notation "'let*' x ':=' m 'in' k" := (bind m (fun x => k))
  (at level 200, x name, m at level 100, k at level 200).

(** [xs.map(f)] where [f] may throw: the first throw escapes. *)
Fixpoint map_result {A B} (f : A -> result B) (xs : list A) : result (list B) :=
  match xs with
  | [] => Ok []
  | x :: xs' => let* y := f x in let* ys := map_result f xs' in Ok (y :: ys)
  end.

(** ** src/QueryBuilderPage.tsx *)
Module QueryBuilder.
Import JsString.

Inductive ValueType :=
| VT_string | VT_integer | VT_double | VT_boolean | VT_null | VT_timestamp
| VT_key | VT_blob | VT_geoPoint | VT_array | VT_entity | VT_raw.

Inductive WhereOperator :=
| Op_eq | Op_ne | Op_gt | Op_ge | Op_lt | Op_le | Op_IN | Op_HAS_ANCESTOR.

Definition operator_text (o : WhereOperator) : string :=
  match o with
  | Op_eq => "=" | Op_ne => "!=" | Op_gt => ">" | Op_ge => ">="
  | Op_lt => "<" | Op_le => "<=" | Op_IN => "IN" | Op_HAS_ANCESTOR => "HAS ANCESTOR"
  end.

Inductive SortDirection := ASC | DESC.

Definition direction_text (d : SortDirection) : string :=
  match d with ASC => "ASC" | DESC => "DESC" end.

Inductive Aggregation := Agg_none | Agg_count | Agg_sum | Agg_avg | Agg_min | Agg_max.

Record WhereClause := {
  id : Z;
  field : string;
  operator : WhereOperator;
  value : string;
  valueType : ValueType }.

(** [{ ...clause, valueType: t }], [{ ...clause, value: v }],
    [{ ...clause, operator: "=", value: v }] *)
Definition with_valueType (c : WhereClause) (t : ValueType) : WhereClause :=
  {| id := id c; field := field c; operator := operator c; value := value c; valueType := t |}.
Definition with_value (c : WhereClause) (v : string) : WhereClause :=
  {| id := id c; field := field c; operator := operator c; value := v; valueType := valueType c |}.
Definition with_eq_value (c : WhereClause) (v : string) : WhereClause :=
  {| id := id c; field := field c; operator := Op_eq; value := v; valueType := valueType c |}.

(** The one-character strings [\], ['] and the double quote. *)
Definition bs : string := String (ascii_of_nat 92) EmptyString.
Definition sq : string := String (ascii_of_nat 39) EmptyString.
Definition dq : string := String (ascii_of_nat 34) EmptyString.

(** [s.replace(/c/g, r)] for a single character [c]. *)
Fixpoint replace_all (c : ascii) (r : string) (s : string) : string :=
  match s with
  | EmptyString => EmptyString
  | String x s' => if Ascii.eqb x c then r ++ replace_all c r s' else String x (replace_all c r s')
  end.

Definition escapeString (v : string) : string :=
  replace_all (ascii_of_nat 39) (bs ++ sq) (replace_all (ascii_of_nat 92) (bs ++ bs) v).

Definition escapeDoubleQuoted (v : string) : string :=
  replace_all (ascii_of_nat 34) (bs ++ dq) (replace_all (ascii_of_nat 92) (bs ++ bs) v).

Definition quoted (f : string) : string := dq ++ f ++ dq.

(** [/^-?\d+$/.test(s)] *)
Definition is_integer_text (s : string) : bool :=
  let all_digits l := match l with [] => false | _ => forallb is_digit l end in
  match list_ascii_of_string s with
  | c :: l => if Ascii.eqb c "-" then all_digits l else all_digits (c :: l)
  | [] => false
  end.

(** [/^key\s*\(/i.test(s)] *)
Definition is_key_literal (s : string) : bool :=
  let fix after_ws l :=
    match l with
    | c :: l' => if is_whitespace c then after_ws l' else Ascii.eqb c "("
    | [] => false
    end in
  match list_ascii_of_string s with
  | k :: e :: y :: l =>
      Ascii.eqb (to_lower_char k) "k" && Ascii.eqb (to_lower_char e) "e"
      && Ascii.eqb (to_lower_char y) "y" && after_ws l
  | _ => false
  end.

(** [parseWhereValue]: the literal for one clause value, by declared type. *)
Definition parseWhereValue (c : WhereClause) : result string :=
  let trimmedValue := trim (value c) in
  match valueType c with
  | VT_string => Ok (sq ++ escapeString (value c) ++ sq)
  | VT_integer =>
      if is_integer_text trimmedValue then Ok trimmedValue
      else Err ("Integer field " ++ quoted (field c) ++ " has an invalid integer value.")
  | VT_double =>
      let parsed := JsNumber.of_string trimmedValue in
      if JsNumber.is_finite parsed then Ok (JsNumber.to_string parsed)
      else Err ("Double field " ++ quoted (field c) ++ " has an invalid number.")
  | VT_boolean =>
      let normalized := to_lower trimmedValue in
      if negb (String.eqb normalized "true") && negb (String.eqb normalized "false")
      then Err ("Boolean field " ++ quoted (field c) ++ " must be true or false.")
      else Ok normalized
  | VT_null => Ok "NULL"
  | VT_timestamp =>
      if String.eqb trimmedValue "" then Err ("Timestamp field " ++ quoted (field c) ++ " requires a value.")
      else Ok ("DATETIME(" ++ dq ++ escapeDoubleQuoted trimmedValue ++ dq ++ ")")
  | VT_key =>
      if negb (is_key_literal trimmedValue)
      then Err ("Key field " ++ quoted (field c) ++ " must use a KEY(...) literal.")
      else Ok trimmedValue
  | VT_blob =>
      if String.eqb trimmedValue "" then Err ("Blob field " ++ quoted (field c) ++ " requires a base64 value.")
      else Ok ("BLOB(" ++ dq ++ escapeDoubleQuoted trimmedValue ++ dq ++ ")")
  | VT_geoPoint =>
      (* [const [latRaw, lngRaw] = trimmedValue.split(",").map(v => v.trim())];
         a missing [lngRaw] is [undefined], and [Number(undefined)] is NaN *)
      let parts := map trim (split "," trimmedValue) in
      let latitude := match parts with latRaw :: _ => JsNumber.of_string latRaw | [] => JsNumber.NaN end in
      let longitude := match parts with _ :: lngRaw :: _ => JsNumber.of_string lngRaw | _ => JsNumber.NaN end in
      if negb (JsNumber.is_finite latitude) || negb (JsNumber.is_finite longitude)
      then Err ("GeoPoint field " ++ quoted (field c) ++ " must be in " ++ dq ++ "lat,lng" ++ dq ++ " format.")
      else Ok ("GEOPT(" ++ JsNumber.to_string latitude ++ ", " ++ JsNumber.to_string longitude ++ ")")
  | VT_array | VT_entity | VT_raw =>
      if String.eqb trimmedValue "" then Err ("Field " ++ quoted (field c) ++ " requires a literal value.")
      else Ok trimmedValue
  end.

Definition splitInValues (v : string) : list string :=
  filter (fun s => negb (String.eqb s "")) (map trim (split "," v)).

Definition buildWhereClause (c : WhereClause) : result string :=
  match operator c with
  | Op_HAS_ANCESTOR =>
      let* keyLiteral := parseWhereValue (with_valueType c VT_key) in
      Ok ("__key__ HAS ANCESTOR " ++ keyLiteral)
  | Op_IN =>
      match valueType c with
      | VT_null =>
          Err ("IN does not support NULL type for " ++ quoted (field c) ++ ". Use Raw type instead.")
      | _ =>
          let values := splitInValues (value c) in
          match values with
          | [] => Err ("IN filter for " ++ quoted (field c) ++ " requires comma-separated values.")
          | _ =>
              let* parsedValues := map_result (fun v => parseWhereValue (with_value c v)) values in
              Ok (field c ++ " IN ARRAY(" ++ join ", " parsedValues ++ ")")
          end
      end
  | o =>
      let* lit := parseWhereValue c in
      Ok (field c ++ " " ++ operator_text o ++ " " ++ lit)
  end.

Definition not_blank (s : string) : bool := negb (String.eqb (trim s) "").

Definition buildQuery (kind : string) (clauses : list WhereClause) (orderField : string)
    (orderDirection : SortDirection) : result string :=
  let* whereClauses :=
    map_result buildWhereClause (filter (fun c => not_blank (field c)) clauses) in
  let wherePart :=
    match whereClauses with [] => "" | _ => " WHERE " ++ join " AND " whereClauses end in
  let orderPart :=
    if not_blank orderField then " ORDER BY " ++ orderField ++ " " ++ direction_text orderDirection
    else "" in
  Ok ("SELECT * FROM " ++ kind ++ wherePart ++ orderPart).

Definition is_in (c : WhereClause) : bool :=
  match operator c with Op_IN => true | _ => false end.

Definition too_many_combinations : string :=
  "Too many IN combinations. Reduce the number of IN values.".

(** The [for (const clause of inClauses)] loop of [expandInClauses]. *)
Fixpoint expand_loop (inClauses : list WhereClause) (combinations : list (list WhereClause))
    : result (list (list WhereClause)) :=
  match inClauses with
  | [] => Ok combinations
  | c :: rest =>
      match splitInValues (value c) with
      | [] => Err ("IN filter for " ++ quoted (field c) ++ " requires comma-separated values.")
      | values =>
          let nextCombinations :=
            flat_map (fun combo => map (fun v => List.app combo [with_eq_value c v]) values) combinations in
          expand_loop rest nextCombinations
      end
  end.

Definition expandInClauses (clauses : list WhereClause) : result (list (list WhereClause)) :=
  let inClauses := filter (fun c => not_blank (field c) && is_in c) clauses in
  let baseClauses := filter (fun c => not_blank (field c) && negb (is_in c)) clauses in
  let* combinations := expand_loop inClauses [baseClauses] in
  if (50 <? List.length combinations)%nat then Err too_many_combinations
  else Ok combinations.

Definition getNumberValue (v : PropertyValue) : option JsNumber.number :=
  match v with
  | integerValue s => Some (JsNumber.of_string s)
  | doubleValue d => Some d
  | _ => None
  end.

(** [Math.min(a, b)] and [Math.max(a, b)]: NaN wins, and -0 is below +0. *)
Definition js_min (a b : JsNumber.number) : JsNumber.number :=
  match a, b with
  | S754_nan, _ | _, S754_nan => S754_nan
  | S754_zero sa, S754_zero sb => S754_zero (sa || sb)
  | _, _ => if JsNumber.ltb b a then b else a
  end.

Definition js_max (a b : JsNumber.number) : JsNumber.number :=
  match a, b with
  | S754_nan, _ | _, S754_nan => S754_nan
  | S754_zero sa, S754_zero sb => S754_zero (sa && sb)
  | _, _ => if JsNumber.ltb a b then b else a
  end.

(** The [for (const entity of entities)] loop: finite numbers, in row order. *)
Definition numeric_values (entities : list Entity) (field : string) : list JsNumber.number :=
  fold_left
    (fun values entity =>
       match match properties entity with Some m => lookup field m | None => None end with
       | None => values
       | Some property =>
           match getNumberValue property with
           | Some numberValue =>
               if JsNumber.is_finite numberValue then List.app values [numberValue] else values
           | None => values
           end
       end) entities [].

Definition sum (values : list JsNumber.number) : JsNumber.number :=
  fold_left JsNumber.add values (S754_zero false).

(** [calculateAggregation]; [None] is [null]. *)
Definition calculateAggregation (aggregation : Aggregation) (entities : option (list Entity))
    (field : string) : option JsNumber.number :=
  match entities, aggregation with
  | None, _ | _, Agg_none => None
  | Some es, Agg_count => Some (JsNumber.of_nat (List.length es))
  | Some es, _ =>
      match numeric_values es field with
      | [] => None
      | values =>
          match aggregation with
          | Agg_sum => Some (sum values)
          | Agg_avg => Some (JsNumber.div (sum values) (JsNumber.of_nat (List.length values)))
          | Agg_min => Some (fold_left js_min values (S754_infinity false))
          | _ => Some (fold_left js_max values (S754_infinity true))
          end
      end
  end.

End QueryBuilder.

(** ** src/QueryPage.tsx: join resolution

    Entities and their property maps are JavaScript objects shared by
    reference, and the merge step copies and writes them, so they live in a
    heap: a location is an index, allocation appends. Property values are
    never written by this code and are kept as plain values. *)
Module QueryPage.
Import JsString.

Definition loc := nat.

Inductive Obj :=
| OEntity (k : Key) (props : option loc)   (** [{ key, properties }] *)
| OProps (m : Properties).                  (** a property map *)

Definition Heap := list Obj.

Definition read (h : Heap) (l : loc) : option Obj := nth_error h l.

Definition alloc (h : Heap) (o : Obj) : loc * Heap := (List.length h, List.app h [o]).

Fixpoint store (h : Heap) (l : loc) (o : Obj) : Heap :=
  match h, l with
  | [], _ => []
  | _ :: h', O => o :: h'
  | x :: h', S l' => x :: store h' l' o
  end.

(** [e.properties] as a value ([{}] when absent), and [e.properties?.[p]]. *)
Definition entity_props (h : Heap) (e : loc) : Properties :=
  match read h e with
  | Some (OEntity _ (Some pl)) =>
      match read h pl with Some (OProps m) => m | _ => [] end
  | _ => []
  end.

Definition get_prop (h : Heap) (e : loc) (p : string) : option PropertyValue :=
  lookup p (entity_props h e).

Definition entity_key (h : Heap) (e : loc) : option Key :=
  match read h e with Some (OEntity k _) => Some k | _ => None end.

(** [parseJoinProperties] *)
Definition parseJoinProperties (joinProperty : string) : list string :=
  filter (fun p => negb (String.eqb p "")) (map trim (split "," joinProperty)).

(** [keysToJoin]: the request handed to [useLookupEntities]. *)
Definition keysToJoin (h : Heap) (queryResults : option (list loc))
    (joinProperties : list string) : list Key :=
  match queryResults, joinProperties with
  | None, _ | _, [] => []
  | Some rows, _ =>
      fold_left
        (fun keys e =>
           fold_left
             (fun keys prop =>
                match get_prop h e prop with
                | Some (keyValue k) => List.app keys [k]
                | _ => keys
                end) joinProperties keys) rows []
  end.

(** A [Map<string, loc>] as an association list; [set] overwrites. *)
Fixpoint map_get (k : string) (m : list (string * loc)) : option loc :=
  match m with
  | [] => None
  | (k', v) :: m' => if String.eqb k' k then Some v else map_get k m'
  end.

Fixpoint map_set (k : string) (v : loc) (m : list (string * loc)) : list (string * loc) :=
  match m with
  | [] => [(k, v)]
  | (k', w) :: m' => if String.eqb k' k then (k', v) :: m' else (k', w) :: map_set k v m'
  end.

Section Merge.
(** [keyToString] of src/keys.ts, the canonical key string. *)
Variable keyToString : Key -> string -> option string -> string.
Variables (project : string) (namespace : option string).

Definition entityMap (h : Heap) (joinedEntities : list loc) : list (string * loc) :=
  fold_left
    (fun m e =>
       match entity_key h e with
       | Some k => map_set (keyToString k project namespace) e m
       | None => m
       end) joinedEntities [].

(** One row of [queryResults.map(...)]: copy the properties, add the
    joins, and copy the row only when a join was added. *)
Definition merge_row (emap : list (string * loc)) (joinProperties : list string)
    (h : Heap) (e : loc) : Heap * loc :=
  let '(np, h1) := alloc h (OProps (entity_props h e)) in
  let '(h2, modified) :=
    fold_left
      (fun '(h, modified) prop =>
         match get_prop h e prop with
         | Some (keyValue k) =>
             match map_get (keyToString k project namespace) emap with
             | Some joined =>
                 let cur := match read h np with Some (OProps m) => m | _ => [] end in
                 (store h np (OProps (set_prop (prop ++ "_joined")
                                        (entityValue (entity_props h joined)) cur)), true)
             | None => (h, modified)
             end
         | _ => (h, modified)
         end) joinProperties (h1, false) in
  if modified then
    match read h2 e with
    | Some (OEntity k _) => let '(l, h3) := alloc h2 (OEntity k (Some np)) in (h3, l)
    | _ => (h2, e)
    end
  else (h2, e).

Fixpoint merge_rows (emap : list (string * loc)) (joinProperties : list string)
    (h : Heap) (rows : list loc) : Heap * list loc :=
  match rows with
  | [] => (h, [])
  | e :: rows' =>
      let '(h1, e') := merge_row emap joinProperties h e in
      let '(h2, out) := merge_rows emap joinProperties h1 rows' in
      (h2, e' :: out)
  end.

(** [finalEntities] *)
Definition finalEntities (h : Heap) (queryResults : option (list loc))
    (joinedEntities : option (list loc)) (joinProperties : list string) : Heap * list loc :=
  match queryResults with
  | None => (h, [])
  | Some rows =>
      match joinProperties, joinedEntities with
      | [], _ | _, None => (h, rows)
      | _, Some joined => merge_rows (entityMap h joined) joinProperties h rows
      end
  end.
End Merge.

End QueryPage.

(** ** src/QueryBuilderPage.tsx: the page's tables and state updates *)
Module QueryBuilderState.
Import JsString QueryBuilder.

(** The keys of [propertyTypeToValueType], a [Record<PropertyType, ValueType>]. *)
Inductive PropertyType :=
| PT_null | PT_boolean | PT_integer | PT_double | PT_timestamp | PT_key
| PT_string | PT_blob | PT_geoPoint | PT_array | PT_entity.

Definition propertyTypeToValueType (t : PropertyType) : ValueType :=
  match t with
  | PT_null => VT_null | PT_boolean => VT_boolean | PT_integer => VT_integer
  | PT_double => VT_double | PT_timestamp => VT_timestamp | PT_key => VT_key
  | PT_string => VT_string | PT_blob => VT_blob | PT_geoPoint => VT_geoPoint
  | PT_array => VT_array | PT_entity => VT_entity
  end.

Definition allValueTypes : list ValueType :=
  [VT_string; VT_integer; VT_double; VT_boolean; VT_null; VT_timestamp;
   VT_key; VT_blob; VT_geoPoint; VT_array; VT_entity; VT_raw].

(** [addWhereClause], with [now] the value of [Date.now()]. *)
Definition addWhereClause (now : Z) (previous : list WhereClause) : list WhereClause :=
  List.app previous
    [{| id := (now + Z.of_nat (List.length previous))%Z; field := ""; operator := Op_eq;
        value := ""; valueType := VT_string |}].

(** [removeWhereClause] *)
Definition removeWhereClause (i : Z) (previous : list WhereClause) : list WhereClause :=
  filter (fun c => negb (Z.eqb (id c) i)) previous.

(** A [Partial<WhereClause>]: [None] is a key the patch does not carry. *)
Record Patch := {
  patch_id : option Z;
  patch_field : option string;
  patch_operator : option WhereOperator;
  patch_value : option string;
  patch_valueType : option ValueType }.

(** [{ ...clause, ...patch }] *)
Definition apply_patch (c : WhereClause) (p : Patch) : WhereClause :=
  {| id := match patch_id p with Some x => x | None => id c end;
     field := match patch_field p with Some x => x | None => field c end;
     operator := match patch_operator p with Some x => x | None => operator c end;
     value := match patch_value p with Some x => x | None => value c end;
     valueType := match patch_valueType p with Some x => x | None => valueType c end |}.

(** [updateWhereClause] *)
Definition updateWhereClause (i : Z) (p : Patch) (previous : list WhereClause)
    : list WhereClause :=
  map (fun c => if Z.eqb (id c) i then apply_patch c p else c) previous.

(** [xs.includes(x)] *)
Definition includes (xs : list string) (x : string) : bool := existsb (String.eqb x) xs.

(** The clause update of the effect on [fields]: a clause whose field is not
    a field of the kind (nor [__key__]) gets an empty field. *)
Definition reset_fields (allFields : list string) (previous : list WhereClause)
    : list WhereClause :=
  map (fun c =>
         if includes allFields (field c) || String.eqb (field c) "__key__" then c
         else {| id := id c; field := ""; operator := operator c; value := value c;
                 valueType := valueType c |}) previous.

(** The state [runQuery] writes: [builtQueries] and [queryError]. *)
Record RunState := { builtQueries : list string; queryError : option string }.

(** [runQuery] *)
Definition runQuery (kind : string) (whereClauses : list WhereClause) (orderField : string)
    (orderDirection : SortDirection) (st : RunState) : RunState :=
  if String.eqb kind "" then
    {| builtQueries := builtQueries st; queryError := Some "Choose a table (kind) first." |}
  else
    match (let* queryVariants := expandInClauses whereClauses in
           map_result (fun clauses => buildQuery kind clauses orderField orderDirection)
             queryVariants) with
    | Ok nextQueries => {| builtQueries := nextQueries; queryError := None |}
    | Err msg => {| builtQueries := builtQueries st; queryError := Some msg |}
    end.

End QueryBuilderState.

(** ** src/QueryPage.tsx: query history and draft *)
Module QueryHistory.
Import JsString.

Definition MAX_QUERY_HISTORY : nat := 100.

(** [xs.slice(-n)] for [n > 0] *)
Definition slice_last {A} (n : nat) (xs : list A) : list A := skipn (List.length xs - n) xs.

(** The hook's state: the list in React state and the array last written
    under [queryHistory] in [localStorage] ([None]: not written). *)
Record History := { queries : list string; stored : option (list string) }.

(** [deleteQuery] *)
Definition deleteQuery (queryToDelete : string) (hist : History) : History :=
  let updatedQueries := filter (fun q => negb (String.eqb q queryToDelete)) (queries hist) in
  {| queries := updatedQueries; stored := Some updatedQueries |}.

(** [storeQuery] *)
Definition storeQuery (queryToStore : string) (hist : History) : History :=
  if String.eqb (trim queryToStore) "" then hist
  else
    let nextQueries :=
      List.app (filter (fun q => negb (String.eqb q queryToStore)) (queries hist)) [queryToStore] in
    let compactQueries :=
      if (MAX_QUERY_HISTORY <? List.length nextQueries)%nat
      then slice_last MAX_QUERY_HISTORY nextQueries else nextQueries in
    {| queries := compactQueries; stored := Some compactQueries |}.

(** The list [RecentQueries] renders; [None] is the [null] it returns. *)
Definition recentQueries (query : string) (queries : list string) : option (list string) :=
  match queries with
  | [] => None
  | _ =>
      Some (rev (slice_last 100
        (filter (fun q => String.prefix (to_lower (trim query)) (to_lower q)) queries)))
  end.

End QueryHistory.

(** ** Readings of the spec used to state the claims *)
Module Readings.
Import QueryBuilder.

(** Reading back a single-quoted literal: a backslash takes the next
    character literally, an unescaped quote ends the literal, which must
    be the end of the text. *)
Fixpoint read_sq_body (s : string) : option string :=
  match s with
  | EmptyString => None
  | String c s' =>
      if Ascii.eqb c (ascii_of_nat 92) then
        match s' with
        | String d s'' =>
            match read_sq_body s'' with Some r => Some (String d r) | None => None end
        | EmptyString => None
        end
      else if Ascii.eqb c (ascii_of_nat 39) then
        match s' with EmptyString => Some EmptyString | _ => None end
      else match read_sq_body s' with Some r => Some (String c r) | None => None end
  end.

Definition read_sq_literal (s : string) : option string :=
  match s with
  | String c s' => if Ascii.eqb c (ascii_of_nat 39) then read_sq_body s' else None
  | EmptyString => None
  end.

(** An error message names the field [f] when it contains it in double quotes. *)
Definition names_field (f msg : string) : Prop :=
  exists pre post, msg = pre ++ dq ++ f ++ dq ++ post.

(** Escaping character by character. *)
Fixpoint escape_each (s : string) : string :=
  match s with
  | EmptyString => EmptyString
  | String x s' =>
      if Ascii.eqb x (ascii_of_nat 92) then QueryBuilder.bs ++ QueryBuilder.bs ++ escape_each s'
      else if Ascii.eqb x (ascii_of_nat 39) then QueryBuilder.bs ++ QueryBuilder.sq ++ escape_each s'
      else String x (escape_each s')
  end.


(** The clauses [{ ...c, operator: "=", value: v }] for IN clauses [c] and
    chosen values [v], pairwise. *)
Fixpoint bind_eq (ins : list WhereClause) (vs : list string) : list WhereClause :=
  match ins, vs with
  | c :: ins', v :: vs' => with_eq_value c v :: bind_eq ins' vs'
  | _, _ => []
  end.

(** All choices of one comma-split value per IN clause, in order. *)
Fixpoint choices (ins : list WhereClause) : list (list WhereClause) :=
  match ins with
  | [] => [[]]
  | c :: ins' =>
      flat_map (fun v => map (fun t => with_eq_value c v :: t) (choices ins'))
               (splitInValues (value c))
  end.

(** The number a row contributes to an aggregation over [field]: an
    integer (coerced with [Number]) or a double; nothing for an absent
    property or another tag. *)
Definition row_numbers (e : Entity) (field : string) : list JsNumber.number :=
  match properties e with
  | Some m =>
      match lookup field m with
      | Some (integerValue s) => [JsNumber.of_string s]
      | Some (doubleValue d) => [d]
      | _ => []
      end
  | None => []
  end.

(** The numeric subset: the finite numbers the rows contribute, in order. *)
Definition numeric_subset (rows : list Entity) (field : string) : list JsNumber.number :=
  filter JsNumber.is_finite (flat_map (fun e => row_numbers e field) rows).

(** The reduction of a non-empty numeric subset. *)
Definition reduce (aggregation : Aggregation) (values : list JsNumber.number) : JsNumber.number :=
  match aggregation with
  | Agg_avg => JsNumber.div (sum values) (JsNumber.of_nat (List.length values))
  | Agg_min => fold_left js_min values (S754_infinity false)
  | Agg_max => fold_left js_max values (S754_infinity true)
  | _ => sum values
  end.

(** The keys a row contributes to the lookup request, in property order. *)
Definition row_keys (h : QueryPage.Heap) (joinProperties : list string) (e : QueryPage.loc)
    : list Key :=
  flat_map (fun prop => match QueryPage.get_prop h e prop with
                        | Some (keyValue k) => [k]
                        | _ => []
                        end) joinProperties.

(** Heap well-formedness: an entity's property map is allocated. JavaScript
    references never dangle; a location index can, so the statements
    about the heap exclude it. *)
Definition points_below (n : nat) (o : QueryPage.Obj) : bool :=
  match o with
  | QueryPage.OEntity _ (Some pl) => Nat.ltb pl n
  | _ => true
  end.

Definition heap_closed (h : QueryPage.Heap) : bool :=
  forallb (points_below (List.length h)) h.

Definition in_heap (h : QueryPage.Heap) (ls : list QueryPage.loc) : bool :=
  forallb (fun l => Nat.ltb l (List.length h)) ls.

Section MergeReading.
Variable keyToString : Key -> string -> option string -> string.
Variables (project : string) (namespace : option string).

(** The fetched row a row's join property resolves to: the property holds
    a key whose canonical string is in the index. *)
Definition matched (emap : list (string * QueryPage.loc)) (h : QueryPage.Heap)
    (r : QueryPage.loc) (p : string) : option QueryPage.loc :=
  match QueryPage.get_prop h r p with
  | Some (keyValue k) => QueryPage.map_get (keyToString k project namespace) emap
  | _ => None
  end.

(** The property map and flag the merge loop computes, without the heap. *)
Fixpoint merge_props (emap : list (string * QueryPage.loc)) (h : QueryPage.Heap)
    (r : QueryPage.loc) (joinProperties : list string) (cur : Properties)
    (modified : bool) : Properties * bool :=
  match joinProperties with
  | [] => (cur, modified)
  | p :: ps =>
      match matched emap h r p with
      | Some j =>
          merge_props emap h r ps
            (set_prop (p ++ "_joined") (entityValue (QueryPage.entity_props h j)) cur) true
      | None => merge_props emap h r ps cur modified
      end
  end.

(** The spec's reading: row [r]'s property [p] holds a key canonically
    equal to the key of the fetched row [j]. *)
Definition resolves (h : QueryPage.Heap) (joined : list QueryPage.loc)
    (r : QueryPage.loc) (p : string) (j : QueryPage.loc) : Prop :=
  exists k kj, QueryPage.get_prop h r p = Some (keyValue k) /\ In j joined
    /\ QueryPage.entity_key h j = Some kj
    /\ keyToString kj project namespace = keyToString k project namespace.

(** What the spec says of one output row [r'] for input row [r], with [h]
    the heap before and [h'] the heap after the merge. *)
Definition joined_row (h h' : QueryPage.Heap) (joined : list QueryPage.loc)
    (joinProperties : list string) (r r' : QueryPage.loc) : Prop :=
  ((forall p j, In p joinProperties -> ~ resolves h joined r p j) -> r' = r)
  /\ ((exists p j, In p joinProperties /\ resolves h joined r p j) ->
      exists k np m,
        QueryPage.entity_key h r = Some k
        /\ List.length h <= r' /\ List.length h <= np /\ r' <> np
        /\ QueryPage.read h' r' = Some (QueryPage.OEntity k (Some np))
        /\ QueryPage.read h' np = Some (QueryPage.OProps m)
        /\ (forall p j0, In p joinProperties -> resolves h joined r p j0 ->
              exists j, resolves h joined r p j
                /\ lookup (p ++ "_joined") m
                   = Some (entityValue (QueryPage.entity_props h j)))
        /\ (forall n, (forall p j, In p joinProperties -> resolves h joined r p j ->
                         n <> p ++ "_joined") ->
              lookup n m = lookup n (QueryPage.entity_props h r))).
End MergeReading.

(** [trim_start] on the list of characters. *)
Fixpoint ts (l : list ascii) : list ascii :=
  match l with
  | [] => []
  | c :: l' => if JsString.is_whitespace c then ts l' else l
  end.

(** [x] is the letter [y] or its upper-case form, 32 code units below. *)
Definition case_of (x y : ascii) : Prop := In x [y; ascii_of_nat (nat_of_ascii y - 32)].

(** Reading a double-quoted GQL string after its opening quote: a backslash
    takes the next character literally, the first unescaped double quote
    closes it; gives the text and what follows the closing quote. *)
Fixpoint read_dq_string (s : string) : option (string * string) :=
  match s with
  | EmptyString => None
  | String c s' =>
      if Ascii.eqb c (ascii_of_nat 92) then
        match s' with
        | String d s'' =>
            match read_dq_string s'' with Some (r, rest) => Some (String d r, rest) | None => None end
        | EmptyString => None
        end
      else if Ascii.eqb c (ascii_of_nat 34) then Some (EmptyString, s')
      else match read_dq_string s' with Some (r, rest) => Some (String c r, rest) | None => None end
  end.

End Readings.

(** ** Sample inputs *)
Module Samples.
Import QueryBuilder.

Definition blank_double_clause : WhereClause :=
  {| id := 1; field := "price";
     operator := Op_eq;
     value := String (ascii_of_nat 160) (String (ascii_of_nat 9) "  ");
     valueType := VT_double |}.

Definition ancestor_clause : WhereClause :=
  {| id := 2; field := "owner";
     operator := Op_HAS_ANCESTOR;
     value := "KEY(Org, 'acme')";
     valueType := VT_string |}.

Definition in_clause : WhereClause :=
  {| id := 3; field := "n";
     operator := Op_IN;
     value := "1, 2,,3 ";
     valueType := VT_integer |}.

(** A clause whose field is only white space. *)
Definition blank_field_clause : WhereClause :=
  {| id := 4; field := "  ";
     operator := Op_eq;
     value := "x";
     valueType := VT_string |}.

Definition age_clause : WhereClause :=
  {| id := 5; field := "age";
     operator := Op_gt;
     value := "30";
     valueType := VT_integer |}.

(** An IN clause whose text has no value once split and trimmed. *)
Definition empty_in_clause : WhereClause :=
  {| id := 6; field := "a";
     operator := Op_IN;
     value := " , ";
     valueType := VT_string |}.

Definition expansion_sample : list WhereClause :=
  [ {| id := 7; field := "a"; operator := Op_IN; value := "1,2"; valueType := VT_integer |};
    {| id := 8; field := "b"; operator := Op_eq; value := "x"; valueType := VT_string |};
    {| id := 9; field := "c"; operator := Op_IN; value := "3, 4 ,5"; valueType := VT_integer |} ].

Definition sample_key : Key :=
  {| partitionId := {| projectId := "proj"; namespaceId := None |};
     path := [Build_PathElement "Item" (Some "1") None] |}.

Definition row (props : Properties) : Entity :=
  {| key := sample_key; properties := Some props |}.

(** integer "10", double 4.5, and a row without the field. *)
Definition sum_rows : list Entity :=
  [ row [("v", integerValue "10")];
    row [("v", doubleValue (JsNumber.of_string "4.5"))];
    row [("w", integerValue "7")] ].

Definition ref_key : Key :=
  {| partitionId := {| projectId := "proj"; namespaceId := None |};
     path := [Build_PathElement "Owner" None (Some "alice")] |}.

(** Two result rows (locations 0 and 2) whose property [owner] holds the
    same key, and the fetched row for that key (location 4, no
    properties). *)
Definition join_heap : QueryPage.Heap :=
  [ QueryPage.OEntity sample_key (Some 1);
    QueryPage.OProps [("owner", keyValue ref_key)];
    QueryPage.OEntity sample_key (Some 3);
    QueryPage.OProps [("owner", keyValue ref_key); ("n", integerValue "2")];
    QueryPage.OEntity ref_key None ].

(** A canonical key string for the samples, built from the path's kinds,
    ids and names; the statements about the join hold for every
    [keyToString]. *)
Definition path_string (k : Key) (project : string) (namespace : option string) : string :=
  fold_right (fun pe acc =>
                match pe with
                | Build_PathElement kd i n =>
                    kd ++ "/" ++ match i with Some s => s | None => "" end ++ "/"
                       ++ match n with Some s => s | None => "" end ++ "/" ++ acc
                end) "" (path k).

End Samples.

(** * Theorems *)

Module StringFacts.
Import JsString QueryBuilder.

Lemma str_app_assoc (a b c : string) : (a ++ b) ++ c = a ++ (b ++ c).
Proof. induction a as [|x a IH]; simpl; [reflexivity | now rewrite IH]. Qed.

Lemma str_app_nil_r (a : string) : a ++ "" = a.
Proof. induction a as [|x a IH]; simpl; [reflexivity | now rewrite IH]. Qed.

Lemma replace_all_app (c : ascii) (r a b : string) :
  replace_all c r (a ++ b) = replace_all c r a ++ replace_all c r b.
Proof.
  induction a as [|x a IH]; simpl; [reflexivity|].
  destruct (Ascii.eqb x c); rewrite IH; [now rewrite str_app_assoc | reflexivity].
Qed.

Lemma escapeString_each (s : string) : escapeString s = Readings.escape_each s.
Proof.
  unfold escapeString.
  induction s as [|x s IH]; [reflexivity|].
  cbn [replace_all].
  destruct (Ascii.eqb x (ascii_of_nat 92)) eqn:E1.
  - apply Ascii.eqb_eq in E1; subst x.
    rewrite replace_all_app, IH. reflexivity.
  - cbn [replace_all]. simpl Readings.escape_each. rewrite E1.
    destruct (Ascii.eqb x (ascii_of_nat 39)); rewrite IH; reflexivity.
Qed.

Lemma read_escape_each (s : string) :
  Readings.read_sq_body (Readings.escape_each s ++ sq) = Some s.
Proof.
  induction s as [|x s IH]; [reflexivity|].
  simpl Readings.escape_each.
  destruct (Ascii.eqb x (ascii_of_nat 92)) eqn:E1.
  - apply Ascii.eqb_eq in E1; subst x. simpl. rewrite IH. reflexivity.
  - destruct (Ascii.eqb x (ascii_of_nat 39)) eqn:E2.
    + apply Ascii.eqb_eq in E2; subst x. simpl. rewrite IH. reflexivity.
    + simpl. rewrite E1, E2, IH. reflexivity.
Qed.

Lemma trim_start_all_ws (s : string) :
  (forall ch, In ch (list_ascii_of_string s) -> is_whitespace ch = true) ->
  trim_start s = "".
Proof.
  induction s as [|x s IH]; intros H; [reflexivity|].
  simpl. rewrite (H x (or_introl eq_refl)).
  apply IH. intros ch Hin. apply H. now right.
Qed.

Lemma trim_all_ws (s : string) :
  (forall ch, In ch (list_ascii_of_string s) -> is_whitespace ch = true) ->
  trim s = "".
Proof. intros H. unfold trim. rewrite (trim_start_all_ws s H). reflexivity. Qed.

End StringFacts.

Module ResultFacts.
Import QueryBuilder.

Lemma map_result_ok {A B} (f : A -> result B) (xs : list A) (ys : list B) :
  map_result f xs = Ok ys <-> Forall2 (fun x y => f x = Ok y) xs ys.
Proof.
  revert ys; induction xs as [|x xs IH]; intros ys; simpl.
  - split; intros H; [injection H as <-; constructor | inversion H; reflexivity].
  - destruct (f x) as [y|e] eqn:Hf; simpl.
    + destruct (map_result f xs) as [zs|e] eqn:Hr; simpl.
      * split; intros H.
        -- injection H as <-. constructor; [assumption|]. now apply IH.
        -- inversion H as [|? ? ? ? Hy Hys]; subst.
           rewrite Hf in Hy; injection Hy as ->.
           apply IH in Hys. injection Hys as ->. reflexivity.
      * split; intros H; [discriminate|].
        inversion H as [|? ? ? ? Hy Hys]; subst. apply IH in Hys. discriminate.
    + split; intros H; [discriminate|].
      inversion H as [|? ? ? ? Hy Hys]; subst. congruence.
Qed.

Lemma map_result_err {A B} (f : A -> result B) (xs : list A) (msg : string) :
  map_result f xs = Err msg -> exists x, In x xs /\ f x = Err msg.
Proof.
  induction xs as [|x xs IH]; simpl; [discriminate|].
  destruct (f x) as [y|e] eqn:Hf; simpl.
  - destruct (map_result f xs) as [zs|e] eqn:Hr; simpl; [discriminate|].
    intros H; injection H as ->. destruct (IH eq_refl) as [x' [Hin Hx']].
    exists x'; split; [now right | assumption].
  - intros H; injection H as ->. exists x; split; [now left | assumption].
Qed.

Lemma map_result_first_err {A B} (f : A -> result B) (pre : list A) (x : A) (post : list A)
    (msg : string) :
  Forall (fun y => exists r, f y = Ok r) pre -> f x = Err msg ->
  map_result f (pre ++ x :: post) = Err msg.
Proof.
  intros Hpre Hx. induction Hpre as [|y pre [r Hr] _ IH]; simpl.
  - rewrite Hx. reflexivity.
  - rewrite Hr. simpl. rewrite IH. reflexivity.
Qed.

Lemma map_result_ok_each {A B} (f : A -> result B) (xs : list A) (ys : list B) (x : A) :
  map_result f xs = Ok ys -> In x xs -> exists r, f x = Ok r.
Proof.
  intros H Hin. apply map_result_ok in H. revert Hin.
  induction H as [|x' y xs' ys' Hxy _ IH]; intros Hin; [destruct Hin|].
  destruct Hin as [<-|Hin]; [now exists y | now apply IH].
Qed.

Lemma names_field_intro (pre f post : string) :
  Readings.names_field f (pre ++ quoted f ++ post).
Proof.
  exists pre, post. unfold quoted. rewrite !StringFacts.str_app_assoc. reflexivity.
Qed.

Lemma err_names_field (pre f post msg : string) :
  @Err string (pre ++ quoted f ++ post) = Err msg -> Readings.names_field f msg.
Proof. intros H; injection H as <-; apply names_field_intro. Qed.

Lemma parseWhereValue_err_names_field (c : WhereClause) (msg : string) :
  parseWhereValue c = Err msg -> Readings.names_field (field c) msg.
Proof.
  unfold parseWhereValue.
  destruct (valueType c);
    repeat match goal with
    | |- context [if ?b then _ else _] => destruct b
    end;
    intros H; try discriminate; eapply err_names_field; exact H.
Qed.

End ResultFacts.

(** [C6] The string literal builder escapes backslashes, then single quotes,
    and wraps the result in single quotes; reading the literal back (a
    backslash takes the next character literally, a bare quote closes it)
    gives the original text for every input; [O'Brien\] becomes
    ['O\'Brien\\']. *)
Theorem string_literal_roundtrip :
  (forall c : QueryBuilder.WhereClause,
      QueryBuilder.parseWhereValue (QueryBuilder.with_valueType c QueryBuilder.VT_string)
      = Ok (QueryBuilder.sq ++ QueryBuilder.escapeString (QueryBuilder.value c) ++ QueryBuilder.sq)
      /\ Readings.read_sq_literal
           (QueryBuilder.sq ++ QueryBuilder.escapeString (QueryBuilder.value c) ++ QueryBuilder.sq)
         = Some (QueryBuilder.value c))
  /\ QueryBuilder.sq ++ QueryBuilder.escapeString "O'Brien\" ++ QueryBuilder.sq = "'O\'Brien\\'".
Proof.
  split; [|reflexivity].
  intros c. split; [reflexivity|].
  simpl. rewrite StringFacts.escapeString_each. apply StringFacts.read_escape_each.
Qed.

(** [C10] A clause of declared type double whose text is empty or only
    white space builds the literal ["0"] without error: the trimmed text is
    empty, [Number("")] is +0, which is finite and prints as ["0"]. *)
Theorem double_blank_value_is_zero (c : QueryBuilder.WhereClause)
    (Hty : QueryBuilder.valueType c = QueryBuilder.VT_double)
    (Hws : forall ch, In ch (list_ascii_of_string (QueryBuilder.value c)) ->
                      JsString.is_whitespace ch = true) :
  QueryBuilder.parseWhereValue c = Ok "0".
Proof.
  unfold QueryBuilder.parseWhereValue.
  rewrite Hty, (StringFacts.trim_all_ws _ Hws). reflexivity.
Qed.

Lemma double_blank_value_is_zero_witness :
  QueryBuilder.valueType Samples.blank_double_clause = QueryBuilder.VT_double
  /\ QueryBuilder.parseWhereValue Samples.blank_double_clause = Ok "0".
Proof.
  split; [reflexivity|].
  apply double_blank_value_is_zero; [reflexivity|].
  intros ch Hin. simpl in Hin.
  repeat (destruct Hin as [<- | Hin]; [reflexivity|]). destruct Hin.
Defined.

(** [C8] A clause whose operator is HAS ANCESTOR is built as
    [__key__ HAS ANCESTOR <literal>] with its trimmed text checked as a
    KEY(...) literal, whatever its stored field and declared type (these only
    appear in the error message); the text [KEY(Org, 'acme')] gives
    [__key__ HAS ANCESTOR KEY(Org, 'acme')]. *)
Theorem has_ancestor_forces_key_literal :
  (forall c : QueryBuilder.WhereClause,
      QueryBuilder.operator c = QueryBuilder.Op_HAS_ANCESTOR ->
      QueryBuilder.buildWhereClause c =
        if QueryBuilder.is_key_literal (JsString.trim (QueryBuilder.value c))
        then Ok ("__key__ HAS ANCESTOR " ++ JsString.trim (QueryBuilder.value c))
        else Err ("Key field " ++ QueryBuilder.quoted (QueryBuilder.field c)
                  ++ " must use a KEY(...) literal."))
  /\ (forall c : QueryBuilder.WhereClause,
      QueryBuilder.operator c = QueryBuilder.Op_HAS_ANCESTOR ->
      QueryBuilder.value c = "KEY(Org, 'acme')" ->
      QueryBuilder.buildWhereClause c = Ok "__key__ HAS ANCESTOR KEY(Org, 'acme')").
Proof.
  assert (Hgen : forall c : QueryBuilder.WhereClause,
      QueryBuilder.operator c = QueryBuilder.Op_HAS_ANCESTOR ->
      QueryBuilder.buildWhereClause c =
        if QueryBuilder.is_key_literal (JsString.trim (QueryBuilder.value c))
        then Ok ("__key__ HAS ANCESTOR " ++ JsString.trim (QueryBuilder.value c))
        else Err ("Key field " ++ QueryBuilder.quoted (QueryBuilder.field c)
                  ++ " must use a KEY(...) literal.")).
  { intros c Hop. unfold QueryBuilder.buildWhereClause. rewrite Hop.
    unfold QueryBuilder.parseWhereValue. cbn [QueryBuilder.valueType QueryBuilder.value
      QueryBuilder.field QueryBuilder.with_valueType].
    destruct (QueryBuilder.is_key_literal (JsString.trim (QueryBuilder.value c))); reflexivity. }
  split; [exact Hgen|].
  intros c Hop Hv. rewrite (Hgen c Hop), Hv. reflexivity.
Qed.

Lemma has_ancestor_forces_key_literal_witness :
  QueryBuilder.buildWhereClause Samples.ancestor_clause = Ok "__key__ HAS ANCESTOR KEY(Org, 'acme')".
Proof. apply (proj2 has_ancestor_forces_key_literal); reflexivity. Defined.

(** [C9] Building an IN clause: the declared type null is rejected with an
    error; otherwise the text is split on commas, each piece trimmed and the
    empty ones dropped; no piece left is an error; otherwise each piece is
    built on its own as a literal of the declared type, and the clause is
    [<field> IN ARRAY(<lit1>, <lit2>, ...)]. Every error names the field in
    double quotes. *)
Theorem in_clause_building (c : QueryBuilder.WhereClause)
    (Hop : QueryBuilder.operator c = QueryBuilder.Op_IN) :
  (QueryBuilder.valueType c = QueryBuilder.VT_null ->
     exists msg, QueryBuilder.buildWhereClause c = Err msg
                 /\ Readings.names_field (QueryBuilder.field c) msg)
  /\ (forall x, In x (QueryBuilder.splitInValues (QueryBuilder.value c)) <->
        x <> "" /\ exists piece, In piece (JsString.split "," (QueryBuilder.value c))
                                /\ x = JsString.trim piece)
  /\ (QueryBuilder.valueType c <> QueryBuilder.VT_null ->
        QueryBuilder.splitInValues (QueryBuilder.value c) = [] ->
        exists msg, QueryBuilder.buildWhereClause c = Err msg
                    /\ Readings.names_field (QueryBuilder.field c) msg)
  /\ (QueryBuilder.valueType c <> QueryBuilder.VT_null ->
        forall r, QueryBuilder.buildWhereClause c = Ok r <->
          exists lits,
            QueryBuilder.splitInValues (QueryBuilder.value c) <> []
            /\ Forall2 (fun v l => QueryBuilder.parseWhereValue (QueryBuilder.with_value c v) = Ok l)
                       (QueryBuilder.splitInValues (QueryBuilder.value c)) lits
            /\ r = QueryBuilder.field c ++ " IN ARRAY(" ++ JsString.join ", " lits ++ ")")
  /\ (forall msg, QueryBuilder.buildWhereClause c = Err msg ->
        Readings.names_field (QueryBuilder.field c) msg).
Proof.
  assert (Hnn : QueryBuilder.valueType c <> QueryBuilder.VT_null ->
    QueryBuilder.buildWhereClause c =
      match QueryBuilder.splitInValues (QueryBuilder.value c) with
      | [] => Err ("IN filter for " ++ QueryBuilder.quoted (QueryBuilder.field c)
                   ++ " requires comma-separated values.")
      | _ =>
          let* parsedValues := map_result
              (fun v => QueryBuilder.parseWhereValue (QueryBuilder.with_value c v))
              (QueryBuilder.splitInValues (QueryBuilder.value c)) in
          Ok (QueryBuilder.field c ++ " IN ARRAY(" ++ JsString.join ", " parsedValues ++ ")")
      end).
  { intros Ht. unfold QueryBuilder.buildWhereClause. rewrite Hop.
    destruct (QueryBuilder.valueType c); try reflexivity; exfalso; now apply Ht. }
  assert (Herr : forall msg, QueryBuilder.buildWhereClause c = Err msg ->
      Readings.names_field (QueryBuilder.field c) msg).
  { intros msg H.
    destruct (QueryBuilder.valueType c) eqn:Ht.
    all: try (unfold QueryBuilder.buildWhereClause in H; rewrite Hop, Ht in H;
              eapply ResultFacts.err_names_field; exact H).
    all: rewrite Hnn in H by congruence.
    all: destruct (QueryBuilder.splitInValues (QueryBuilder.value c)) as [|v vs];
         [eapply ResultFacts.err_names_field; exact H|].
    all: cbv zeta in H; unfold bind in H.
    all: destruct (map_result _ (v :: vs)) as [lits|e] eqn:Hm; [discriminate|].
    all: injection H as <-; apply ResultFacts.map_result_err in Hm.
    all: destruct Hm as [x [_ Hx]]; apply ResultFacts.parseWhereValue_err_names_field in Hx;
         exact Hx. }
  split; [|split; [|split; [|split]]].
  - intros Ht. eexists; split; [|eapply ResultFacts.err_names_field; reflexivity].
    unfold QueryBuilder.buildWhereClause. rewrite Hop, Ht. reflexivity.
  - intros x. unfold QueryBuilder.splitInValues. rewrite filter_In, in_map_iff.
    split.
    + intros [[piece [Hp Hin]] Hne]. split.
      * intros ->. rewrite String.eqb_refl in Hne. discriminate.
      * exists piece. split; [assumption | symmetry; assumption].
    + intros [Hne [piece [Hin Hp]]]. split.
      * exists piece. split; [symmetry; assumption | assumption].
      * apply negb_true_iff, String.eqb_neq. exact Hne.
  - intros Ht Hempty. rewrite (Hnn Ht), Hempty.
    eexists; split; [reflexivity|]. apply ResultFacts.names_field_intro.
  - intros Ht r. rewrite (Hnn Ht).
    destruct (QueryBuilder.splitInValues (QueryBuilder.value c)) as [|v vs].
    + split; [discriminate|]. intros [lits [Hne _]]. now destruct Hne.
    + cbv zeta. unfold bind.
      destruct (map_result _ (v :: vs)) as [lits|e] eqn:Hm.
      * split.
        -- intros H; injection H as <-. exists lits. split; [discriminate|].
           split; [now apply ResultFacts.map_result_ok | reflexivity].
        -- intros [lits' [_ [Hf ->]]]. apply ResultFacts.map_result_ok in Hf.
           rewrite Hf in Hm. injection Hm as ->. reflexivity.
      * split; [discriminate|].
        intros [lits' [_ [Hf _]]]. apply ResultFacts.map_result_ok in Hf. congruence.
  - exact Herr.
Qed.

Lemma in_clause_building_witness :
  QueryBuilder.buildWhereClause Samples.in_clause = Ok "n IN ARRAY(1, 2, 3)".
Proof.
  apply (proj1 (proj2 (proj2 (proj2 (in_clause_building Samples.in_clause eq_refl))))
           ltac:(discriminate)).
  exists ["1"; "2"; "3"]. split; [discriminate|].
  split; [vm_compute; repeat constructor | reflexivity].
Defined.

Module QueryFacts.
Import QueryBuilder.

Lemma buildQuery_ok (kind : string) (clauses : list WhereClause) (orderField : string)
    (dir : SortDirection) (rs : list string) :
  Forall2 (fun c r => buildWhereClause c = Ok r)
          (filter (fun c => not_blank (field c)) clauses) rs ->
  buildQuery kind clauses orderField dir =
    Ok ("SELECT * FROM " ++ kind
        ++ match rs with [] => "" | _ => " WHERE " ++ JsString.join " AND " rs end
        ++ if not_blank orderField
           then " ORDER BY " ++ orderField ++ " " ++ direction_text dir else "").
Proof.
  intros H. apply ResultFacts.map_result_ok in H.
  unfold buildQuery. rewrite H. reflexivity.
Qed.

Lemma buildQuery_err (kind : string) (clauses : list WhereClause) (orderField : string)
    (dir : SortDirection) (msg : string) :
  buildQuery kind clauses orderField dir = Err msg ->
  exists c, In c clauses /\ not_blank (field c) = true /\ buildWhereClause c = Err msg.
Proof.
  unfold buildQuery, bind.
  destruct (map_result buildWhereClause _) as [ws|e] eqn:Hm; [discriminate|].
  intros H; injection H as <-.
  apply ResultFacts.map_result_err in Hm. destruct Hm as [c [Hin Hc]].
  apply filter_In in Hin. destruct Hin as [Hin Hnb].
  exists c. auto.
Qed.

Lemma buildQuery_skip_blank (kind : string) (pre post : list WhereClause) (c : WhereClause)
    (orderField : string) (dir : SortDirection) :
  JsString.trim (field c) = "" ->
  buildQuery kind (pre ++ c :: post) orderField dir = buildQuery kind (pre ++ post) orderField dir.
Proof.
  intros Hb. unfold buildQuery. rewrite !filter_app. simpl.
  unfold not_blank at 2. rewrite Hb. reflexivity.
Qed.

Lemma buildQuery_ok_each (kind : string) (clauses : list WhereClause) (orderField : string)
    (dir : SortDirection) (out : string) (c : WhereClause) :
  buildQuery kind clauses orderField dir = Ok out -> In c clauses -> not_blank (field c) = true ->
  exists r, buildWhereClause c = Ok r.
Proof.
  unfold buildQuery, bind.
  destruct (map_result buildWhereClause _) as [ws|e] eqn:Hm; [|discriminate].
  intros _ Hin Hnb. apply (ResultFacts.map_result_ok_each _ _ _ c Hm).
  apply filter_In. now split.
Qed.

Lemma buildQuery_first_err (kind : string) (pre post : list WhereClause) (c : WhereClause)
    (orderField : string) (dir : SortDirection) (msg : string) :
  Forall (fun c' => not_blank (field c') = true -> exists r, buildWhereClause c' = Ok r) pre ->
  not_blank (field c) = true -> buildWhereClause c = Err msg ->
  buildQuery kind (pre ++ c :: post) orderField dir = Err msg.
Proof.
  intros Hpre Hnb Hc. unfold buildQuery. rewrite filter_app.
  change (filter (fun c0 => not_blank (field c0)) (c :: post))
    with (if not_blank (field c) then c :: filter (fun c0 => not_blank (field c0)) post
          else filter (fun c0 => not_blank (field c0)) post).
  rewrite Hnb.
  rewrite (ResultFacts.map_result_first_err _ _ c _ msg); [reflexivity| |exact Hc].
  apply Forall_forall. intros y Hy. apply filter_In in Hy as [Hy Hyb].
  rewrite Forall_forall in Hpre. exact (Hpre y Hy Hyb).
Qed.

End QueryFacts.

(** [C5] (as amended) [buildQuery] skips the clauses whose field is blank
    (empty or only white space after trimming), renders the others in
    source-list order joined with [ AND ]; if a non-blank clause fails to
    build, the query fails, with the error of the first failing clause (and
    every error of the query is the error of one of its clauses); it puts [ WHERE ] before them only when at
    least one remains, and appends [ ORDER BY <orderField> <ASC|DESC>] only
    when the order field is not blank; the two examples of the spec hold. *)
Theorem buildQuery_assembly :
  (forall kind clauses orderField dir rs,
     Forall2 (fun c r => QueryBuilder.buildWhereClause c = Ok r)
       (filter (fun c => negb (String.eqb (JsString.trim (QueryBuilder.field c)) "")) clauses) rs ->
     QueryBuilder.buildQuery kind clauses orderField dir =
       Ok ("SELECT * FROM " ++ kind
           ++ match rs with [] => "" | _ => " WHERE " ++ JsString.join " AND " rs end
           ++ if negb (String.eqb (JsString.trim orderField) "")
              then " ORDER BY " ++ orderField ++ " " ++ QueryBuilder.direction_text dir else ""))
  /\ (forall kind clauses orderField dir msg,
        QueryBuilder.buildQuery kind clauses orderField dir = Err msg ->
        exists c, In c clauses /\ JsString.trim (QueryBuilder.field c) <> ""
                  /\ QueryBuilder.buildWhereClause c = Err msg)
  /\ (forall kind clauses orderField dir out c,
        QueryBuilder.buildQuery kind clauses orderField dir = Ok out ->
        In c clauses -> JsString.trim (QueryBuilder.field c) <> "" ->
        exists r, QueryBuilder.buildWhereClause c = Ok r)
  /\ (forall kind pre c post orderField dir msg,
        Forall (fun c' => JsString.trim (QueryBuilder.field c') <> "" ->
                          exists r, QueryBuilder.buildWhereClause c' = Ok r) pre ->
        JsString.trim (QueryBuilder.field c) <> "" ->
        QueryBuilder.buildWhereClause c = Err msg ->
        QueryBuilder.buildQuery kind (pre ++ c :: post) orderField dir = Err msg)
  /\ (forall kind pre c post orderField dir,
        JsString.trim (QueryBuilder.field c) = "" ->
        QueryBuilder.buildQuery kind (pre ++ c :: post) orderField dir
        = QueryBuilder.buildQuery kind (pre ++ post) orderField dir)
  /\ QueryBuilder.buildQuery "Person" [Samples.age_clause] "age" QueryBuilder.DESC
     = Ok "SELECT * FROM Person WHERE age > 30 ORDER BY age DESC"
  /\ QueryBuilder.buildQuery "Person" [] "" QueryBuilder.ASC = Ok "SELECT * FROM Person".
Proof.
  assert (Hnb : forall s, JsString.trim s <> "" -> QueryBuilder.not_blank s = true).
  { intros s0 H. unfold QueryBuilder.not_blank. apply negb_true_iff, String.eqb_neq. exact H. }
  split; [|split; [|split; [|split; [|split; [|split]]]]].
  - intros kind clauses orderField dir rs H. exact (QueryFacts.buildQuery_ok _ _ _ _ _ H).
  - intros kind clauses orderField dir msg H.
    destruct (QueryFacts.buildQuery_err _ _ _ _ _ H) as [c [Hin [Hnb' Hc]]].
    exists c. split; [assumption|]. split; [|assumption].
    unfold QueryBuilder.not_blank in Hnb'. apply negb_true_iff, String.eqb_neq in Hnb'. exact Hnb'.
  - intros kind clauses orderField dir out c H Hin Hc.
    exact (QueryFacts.buildQuery_ok_each _ _ _ _ _ c H Hin (Hnb _ Hc)).
  - intros kind pre c post orderField dir msg Hpre Hc Herr.
    apply QueryFacts.buildQuery_first_err; [| exact (Hnb _ Hc) | exact Herr].
    apply Forall_forall. intros y Hy Hyb. rewrite Forall_forall in Hpre.
    apply (Hpre y Hy). unfold QueryBuilder.not_blank in Hyb.
    apply negb_true_iff, String.eqb_neq in Hyb. exact Hyb.
  - intros. now apply QueryFacts.buildQuery_skip_blank.
  - reflexivity.
  - reflexivity.
Qed.

Lemma buildQuery_assembly_witness :
  QueryBuilder.buildQuery "Shop" [Samples.age_clause; Samples.blank_field_clause] "" QueryBuilder.ASC
  = Ok "SELECT * FROM Shop WHERE age > 30"
  /\ QueryBuilder.buildQuery "Shop" ([Samples.age_clause] ++ Samples.empty_in_clause :: [])
       "" QueryBuilder.ASC
     = Err ("IN filter for " ++ QueryBuilder.dq ++ "a" ++ QueryBuilder.dq
            ++ " requires comma-separated values.").
Proof.
  split.
  - rewrite (proj1 buildQuery_assembly "Shop" [Samples.age_clause; Samples.blank_field_clause]
               "" QueryBuilder.ASC ["age > 30"]); [reflexivity|].
    simpl filter. constructor; [reflexivity | constructor].
  - destruct buildQuery_assembly as [_ [_ [_ [Hfirst _]]]].
    apply Hfirst.
    + constructor; [intros _; eexists; reflexivity | constructor].
    + discriminate.
    + vm_compute. reflexivity.
Defined.

(** [C5] as stated fails: a clause whose field is two spaces is not empty
    and renders to a predicate on its own, yet [buildQuery] drops it. *)
Lemma buildQuery_whitespace_field_dropped :
  QueryBuilder.field Samples.blank_field_clause <> ""
  /\ QueryBuilder.buildWhereClause Samples.blank_field_clause = Ok "   = 'x'"
  /\ QueryBuilder.buildQuery "Person" [Samples.blank_field_clause] "" QueryBuilder.ASC
     <> Ok ("SELECT * FROM Person WHERE " ++ "   = 'x'").
Proof. split; [discriminate|]. split; [reflexivity|]. vm_compute. discriminate. Qed.

Module ExpandFacts.
Import QueryBuilder Readings.

Lemma flat_map_flat_map {A B C} (f : A -> list B) (g : B -> list C) (l : list A) :
  flat_map g (flat_map f l) = flat_map (fun x => flat_map g (f x)) l.
Proof.
  induction l as [|x l IH]; simpl; [reflexivity|].
  rewrite flat_map_app, IH. reflexivity.
Qed.

Lemma flat_map_map' {A B C} (f : A -> B) (g : B -> list C) (l : list A) :
  flat_map g (map f l) = flat_map (fun x => g (f x)) l.
Proof. induction l as [|x l IH]; simpl; [reflexivity|]. now rewrite IH. Qed.

Lemma map_flat_map' {A B C} (f : A -> list B) (g : B -> C) (l : list A) :
  map g (flat_map f l) = flat_map (fun x => map g (f x)) l.
Proof.
  induction l as [|x l IH]; simpl; [reflexivity|]. now rewrite map_app, IH.
Qed.

Lemma expand_loop_ok (ins : list WhereClause) (combos : list (list WhereClause)) :
  Forall (fun c => splitInValues (value c) <> []) ins ->
  expand_loop ins combos = Ok (flat_map (fun combo => map (List.app combo) (choices ins)) combos).
Proof.
  revert combos. induction ins as [|c ins IH]; intros combos Hne.
  - simpl. f_equal. induction combos as [|x combos IHc]; simpl; [reflexivity|].
    rewrite app_nil_r. f_equal. exact IHc.
  - inversion Hne as [|? ? Hc Hins]; subst.
    assert (Hstep : expand_loop (c :: ins) combos =
      expand_loop ins (flat_map (fun combo =>
        map (fun v => List.app combo [with_eq_value c v]) (splitInValues (value c))) combos)).
    { simpl. destruct (splitInValues (value c)); [congruence | reflexivity]. }
    rewrite Hstep, (IH _ Hins). cbn [choices]. f_equal.
    rewrite flat_map_flat_map. apply flat_map_ext. intros combo.
    rewrite flat_map_map', map_flat_map'. apply flat_map_ext. intros w.
    rewrite map_map. apply map_ext. intros t.
    rewrite <- app_assoc. reflexivity.
Qed.

Lemma expand_loop_err (ins : list WhereClause) (combos : list (list WhereClause)) :
  Exists (fun c => splitInValues (value c) = []) ins ->
  exists c, In c ins /\ splitInValues (value c) = []
    /\ expand_loop ins combos
       = Err ("IN filter for " ++ quoted (field c) ++ " requires comma-separated values.").
Proof.
  revert combos. induction ins as [|c ins IH]; intros combos Hex; [inversion Hex|].
  simpl. destruct (splitInValues (value c)) as [|v vs] eqn:Hv.
  - exists c. split; [now left|]. split; [assumption | reflexivity].
  - inversion Hex as [? ? Hc|? ? Hins]; subst; [congruence|].
    destruct (IH (flat_map (fun combo => map (fun w => List.app combo [with_eq_value c w])
                              (v :: vs)) combos) Hins) as [c' [Hin [Hc' He]]].
    exists c'. split; [now right|]. split; [assumption|]. exact He.
Qed.

Lemma length_choices (ins : list WhereClause) :
  List.length (choices ins) = fold_right Nat.mul 1 (map (fun c => List.length (splitInValues (value c))) ins).
Proof.
  induction ins as [|c ins IH]; simpl; [reflexivity|].
  rewrite (flat_map_constant_length (c := List.length (choices ins))).
  - now rewrite IH.
  - intros v _. now rewrite length_map.
Qed.

Lemma in_choices (ins : list WhereClause) (t : list WhereClause) :
  In t (choices ins) <->
  exists vs, Forall2 (fun c v => In v (splitInValues (value c))) ins vs /\ t = bind_eq ins vs.
Proof.
  revert t. induction ins as [|c ins IH]; intros t; simpl.
  - split.
    + intros [<-|[]]. exists []. split; [constructor | reflexivity].
    + intros [vs [Hf ->]]. inversion Hf; subst. now left.
  - rewrite in_flat_map. split.
    + intros [v [Hv Ht]]. apply in_map_iff in Ht. destruct Ht as [t' [<- Ht']].
      apply IH in Ht'. destruct Ht' as [vs [Hf ->]].
      exists (v :: vs). split; [constructor; assumption | reflexivity].
    + intros [vs [Hf ->]]. inversion Hf as [|? v ? vs' Hv Hf']; subst.
      exists v. split; [assumption|]. apply in_map_iff.
      exists (bind_eq ins vs'). split; [reflexivity|]. apply IH. exists vs'. auto.
Qed.

End ExpandFacts.

(** [C2] (as amended) Let the IN clauses and the other clauses be those
    whose field is not blank, and k1, k2, ... the numbers of comma-split
    values of the IN clauses. When every ki is at least 1, [expandInClauses]
    succeeds exactly when k1 * k2 * ... <= 50, with exactly that many
    combinations, which are the non-IN clauses followed by one '=' clause per
    IN clause bound to one of its values, every choice of values occurring;
    above 50 it fails with the TooManyCombinations error. When some ki is 0,
    it fails with the error of such a clause ("requires comma-separated
    values"), whatever the product. *)
Theorem expandInClauses_combinations (clauses : list QueryBuilder.WhereClause) :
  let ins := filter (fun c => negb (String.eqb (JsString.trim (QueryBuilder.field c)) "")
                              && QueryBuilder.is_in c) clauses in
  let base := filter (fun c => negb (String.eqb (JsString.trim (QueryBuilder.field c)) "")
                               && negb (QueryBuilder.is_in c)) clauses in
  let product := fold_right Nat.mul 1
      (map (fun c => List.length (QueryBuilder.splitInValues (QueryBuilder.value c))) ins) in
  (Forall (fun c => QueryBuilder.splitInValues (QueryBuilder.value c) <> []) ins ->
     ((product <= 50)%nat ->
        exists combos, QueryBuilder.expandInClauses clauses = Ok combos
          /\ List.length combos = product
          /\ forall combo, In combo combos <->
               exists vs, Forall2 (fun c v => In v (QueryBuilder.splitInValues (QueryBuilder.value c))) ins vs
                          /\ combo = List.app base (Readings.bind_eq ins vs))
     /\ ((50 < product)%nat ->
        QueryBuilder.expandInClauses clauses = Err QueryBuilder.too_many_combinations))
  /\ (Exists (fun c => QueryBuilder.splitInValues (QueryBuilder.value c) = []) ins ->
      exists c, In c ins /\ QueryBuilder.splitInValues (QueryBuilder.value c) = []
        /\ QueryBuilder.expandInClauses clauses
           = Err ("IN filter for " ++ QueryBuilder.quoted (QueryBuilder.field c)
                  ++ " requires comma-separated values.")).
Proof.
  intros ins base product.
  assert (Hexp : QueryBuilder.expandInClauses clauses =
    let* combinations := QueryBuilder.expand_loop ins [base] in
    if (50 <? List.length combinations)%nat then Err QueryBuilder.too_many_combinations
    else Ok combinations) by reflexivity.
  split.
  - intros Hne.
    rewrite Hexp, (ExpandFacts.expand_loop_ok _ _ Hne). cbn [bind flat_map].
    rewrite app_nil_r, length_map, ExpandFacts.length_choices. fold product.
    split.
    + intros Hle. exists (map (List.app base) (Readings.choices ins)).
      destruct (Nat.ltb_spec 50 product) as [Hlt|_]; [lia|].
      split; [reflexivity|]. split; [now rewrite length_map, ExpandFacts.length_choices|].
      intros combo. rewrite in_map_iff. split.
      * intros [t [<- Ht]]. apply ExpandFacts.in_choices in Ht.
        destruct Ht as [vs [Hf ->]]. exists vs. split; [assumption | reflexivity].
      * intros [vs [Hf ->]]. exists (Readings.bind_eq ins vs). split; [reflexivity|].
        apply ExpandFacts.in_choices. exists vs. split; [assumption | reflexivity].
    + intros Hgt. destruct (Nat.ltb_spec 50 product) as [_|Hle]; [reflexivity | lia].
  - intros Hex. destruct (ExpandFacts.expand_loop_err ins [base] Hex) as [c [Hin [Hc He]]].
    exists c. split; [assumption|]. split; [assumption|].
    rewrite Hexp, He. reflexivity.
Qed.

Lemma expandInClauses_combinations_witness :
  exists combos, QueryBuilder.expandInClauses Samples.expansion_sample = Ok combos
                 /\ List.length combos = 6%nat.
Proof.
  destruct (expandInClauses_combinations Samples.expansion_sample) as [Hall _].
  assert (Hne : Forall (fun c => QueryBuilder.splitInValues (QueryBuilder.value c) <> [])
    (filter (fun c => negb (String.eqb (JsString.trim (QueryBuilder.field c)) "")
                      && QueryBuilder.is_in c) Samples.expansion_sample)).
  { simpl filter. constructor; [discriminate | constructor; [discriminate | constructor]]. }
  destruct (proj1 (Hall Hne) ltac:(vm_compute; lia)) as [combos [Hok [Hlen _]]].
  exists combos. split; [exact Hok | rewrite Hlen; reflexivity].
Defined.

(** [C2] as stated fails: an IN clause with no value gives a product of 0,
    which is at most 50, yet [expandInClauses] fails instead of returning
    zero combinations. *)
Lemma expandInClauses_empty_in_fails :
  map (fun c => List.length (QueryBuilder.splitInValues (QueryBuilder.value c)))
      [Samples.empty_in_clause] = [0%nat]
  /\ QueryBuilder.expandInClauses [Samples.empty_in_clause]
     = Err ("IN filter for " ++ QueryBuilder.quoted "a" ++ " requires comma-separated values.").
Proof. split; reflexivity. Qed.

Module AggregationFacts.
Import QueryBuilder Readings.

Lemma fold_push {A B} (g : A -> list B) (l : list A) (acc : list B) :
  fold_left (fun acc x => List.app acc (g x)) l acc = List.app acc (flat_map g l).
Proof.
  revert acc. induction l as [|x l IH]; intros acc; simpl.
  - now rewrite app_nil_r.
  - rewrite IH. now rewrite app_assoc.
Qed.

Lemma fold_left_ext' {A B} (f g : A -> B -> A) (l : list B) (a : A) :
  (forall a b, f a b = g a b) -> fold_left f l a = fold_left g l a.
Proof.
  intros H. revert a. induction l as [|b l IH]; intros a; simpl; [reflexivity|].
  now rewrite H, IH.
Qed.

Lemma numeric_values_subset (rows : list Entity) (field : string) :
  numeric_values rows field = numeric_subset rows field.
Proof.
  unfold numeric_values, numeric_subset.
  transitivity (fold_left (fun acc e => List.app acc
                  (filter JsNumber.is_finite (row_numbers e field))) rows []).
  - apply fold_left_ext'. intros acc e.
    unfold row_numbers.
    destruct (properties e) as [m|]; [|now rewrite app_nil_r].
    destruct (lookup field m) as [v|]; [|now rewrite app_nil_r].
    destruct v; simpl; try now rewrite app_nil_r.
    all: match goal with |- context [if ?b then _ else _] => destruct b end;
         simpl; now rewrite ?app_nil_r.
  - rewrite fold_push. simpl.
    induction rows as [|e rows IH]; simpl; [reflexivity|].
    now rewrite filter_app, IH.
Qed.

Lemma aggregation_by_subset (aggregation : Aggregation) (rows : list Entity) (field : string) :
  aggregation <> Agg_none -> aggregation <> Agg_count ->
  calculateAggregation aggregation (Some rows) field =
    match numeric_subset rows field with
    | [] => None
    | values => Some (reduce aggregation values)
    end.
Proof.
  intros H1 H2. unfold calculateAggregation. rewrite numeric_values_subset.
  destruct aggregation; try congruence;
    destruct (numeric_subset rows field); reflexivity.
Qed.

End AggregationFacts.

(** [C7] The aggregation evaluator. [count] returns the number of rows,
    whatever the field. For [sum], [avg], [min] and [max] the result depends
    only on the numeric subset: the integer (coerced with [Number]) and double
    values of the field, in row order, restricted to finite numbers. The
    subset is reduced when it is non-empty, and no value ([null]) is returned
    when it is empty. A row whose field is absent or carries another tag can
    be removed without changing the result. The sum over integer "10",
    double 4.5 and a row without the field is 14.5, and the average over rows
    that all lack the field is no value. *)
Theorem calculateAggregation_semantics :
  (forall (rows : list Entity) (field : string),
      QueryBuilder.calculateAggregation QueryBuilder.Agg_count (Some rows) field
      = Some (JsNumber.of_nat (List.length rows)))
  /\ (forall aggregation rows field,
      aggregation <> QueryBuilder.Agg_none -> aggregation <> QueryBuilder.Agg_count ->
      QueryBuilder.calculateAggregation aggregation (Some rows) field =
        match Readings.numeric_subset rows field with
        | [] => None
        | values => Some (Readings.reduce aggregation values)
        end)
  /\ (forall aggregation rows1 e rows2 field,
      aggregation <> QueryBuilder.Agg_none -> aggregation <> QueryBuilder.Agg_count ->
      (forall m v, properties e = Some m -> lookup field m = Some v ->
         (forall s, v <> integerValue s) /\ (forall d, v <> doubleValue d)) ->
      QueryBuilder.calculateAggregation aggregation (Some (List.app rows1 (e :: rows2))) field
      = QueryBuilder.calculateAggregation aggregation (Some (List.app rows1 rows2)) field)
  /\ (forall aggregation rows field,
      aggregation <> QueryBuilder.Agg_none -> aggregation <> QueryBuilder.Agg_count ->
      Readings.numeric_subset rows field = [] ->
      QueryBuilder.calculateAggregation aggregation (Some rows) field = None)
  /\ QueryBuilder.calculateAggregation QueryBuilder.Agg_sum (Some Samples.sum_rows) "v"
     = Some (JsNumber.of_string "14.5")
  /\ QueryBuilder.calculateAggregation QueryBuilder.Agg_avg
       (Some [Samples.row [("w", integerValue "7")]; Samples.row []]) "v" = None.
Proof.
  split; [reflexivity|].
  split; [exact AggregationFacts.aggregation_by_subset|].
  split.
  - intros aggregation rows1 e rows2 field H1 H2 He.
    rewrite !(AggregationFacts.aggregation_by_subset _ _ _ H1 H2).
    assert (Hnil : Readings.row_numbers e field = []).
    { unfold Readings.row_numbers.
      destruct (properties e) as [m|] eqn:Hp; [|reflexivity].
      destruct (lookup field m) as [v|] eqn:Hl; [|reflexivity].
      destruct (He m v eq_refl Hl) as [Hi Hd].
      destruct v; try reflexivity.
      - exfalso. exact (Hi _ eq_refl).
      - exfalso. exact (Hd _ eq_refl). }
    unfold Readings.numeric_subset.
    rewrite !flat_map_app. simpl. rewrite Hnil. reflexivity.
  - split.
    + intros aggregation rows field H1 H2 H.
      rewrite (AggregationFacts.aggregation_by_subset _ _ _ H1 H2), H. reflexivity.
    + split; vm_compute; reflexivity.
Qed.

Lemma calculateAggregation_semantics_witness :
  QueryBuilder.calculateAggregation QueryBuilder.Agg_avg
    (Some (List.app (firstn 2 Samples.sum_rows) [Samples.row [("w", integerValue "7")]])) "v"
  = QueryBuilder.calculateAggregation QueryBuilder.Agg_avg
    (Some (List.app (firstn 2 Samples.sum_rows) [])) "v"
  /\ QueryBuilder.calculateAggregation QueryBuilder.Agg_max (Some [Samples.row []]) "v" = None.
Proof.
  destruct calculateAggregation_semantics as [_ [_ [H3 [H4 _]]]].
  split.
  - apply H3; try discriminate.
    simpl. intros m v Hm Hl. injection Hm as <-. discriminate Hl.
  - apply H4; try discriminate. reflexivity.
Defined.

Module JoinFacts.
Import QueryPage Readings.

Lemma keysToJoin_flat_map (h : Heap) (rows : list loc) (joinProperties : list string) :
  keysToJoin h (Some rows) joinProperties = flat_map (row_keys h joinProperties) rows.
Proof.
  unfold keysToJoin.
  assert (Hinner : forall e keys,
    fold_left (fun keys prop => match get_prop h e prop with
                                | Some (keyValue k) => List.app keys [k]
                                | _ => keys
                                end) joinProperties keys
    = List.app keys (row_keys h joinProperties e)).
  { intros e keys. unfold row_keys. rewrite <- AggregationFacts.fold_push.
    apply AggregationFacts.fold_left_ext'. intros acc prop.
    destruct (get_prop h e prop) as [[]|]; simpl; now rewrite ?app_nil_r. }
  destruct joinProperties as [|p ps].
  - induction rows as [|e rows IH]; [reflexivity|]. simpl. exact IH.
  - rewrite (AggregationFacts.fold_left_ext' _ (fun acc e => List.app acc (row_keys h (p :: ps) e))).
    + rewrite AggregationFacts.fold_push. reflexivity.
    + intros keys e. apply Hinner.
Qed.

End JoinFacts.

(** [C1] (as found) Two result rows whose join property holds the same key
    put that key twice in the request handed to the batch lookup: the
    request is not deduplicated. *)
Lemma keysToJoin_keeps_duplicates :
  QueryPage.keysToJoin Samples.join_heap (Some [0; 2]) ["owner"]
    = [Samples.ref_key; Samples.ref_key]
  /\ ~ NoDup (QueryPage.keysToJoin Samples.join_heap (Some [0; 2]) ["owner"]).
Proof.
  assert (H : QueryPage.keysToJoin Samples.join_heap (Some [0; 2]) ["owner"]
              = [Samples.ref_key; Samples.ref_key]) by reflexivity.
  split; [exact H|]. rewrite H. intros Hnd. inversion Hnd as [|x l Hnin _ Hx].
  apply Hnin. now left.
Qed.

(** [C1] (amended) The lookup request lists, for each result row in order
    and each join property in order, the key held by that property when it
    is tagged key; nothing is removed, so a key referenced by several
    row/property occurrences appears once per occurrence. *)
Theorem keysToJoin_occurrences (h : QueryPage.Heap) (rows : list QueryPage.loc)
    (joinProperties : list string) :
  QueryPage.keysToJoin h (Some rows) joinProperties
  = flat_map (fun e =>
       flat_map (fun prop => match QueryPage.get_prop h e prop with
                             | Some (keyValue k) => [k]
                             | _ => []
                             end) joinProperties) rows.
Proof. exact (JoinFacts.keysToJoin_flat_map h rows joinProperties). Qed.

Module MergeFacts.
Import QueryPage Readings.

Lemma read_app_lt (h ext : Heap) (l : loc) :
  l < List.length h -> read (List.app h ext) l = read h l.
Proof. intros H. unfold read. now apply nth_error_app1. Qed.

Lemma read_app_at (h : Heap) (o : Obj) (ext : Heap) :
  read (List.app h (o :: ext)) (List.length h) = Some o.
Proof. unfold read. rewrite nth_error_app2 by lia. now rewrite Nat.sub_diag. Qed.

Lemma read_lt (h : Heap) (l : loc) (o : Obj) : read h l = Some o -> l < List.length h.
Proof. unfold read. intros H. apply nth_error_Some. congruence. Qed.

Lemma store_last (h : Heap) (x o : Obj) :
  store (List.app h [x]) (List.length h) o = List.app h [o].
Proof. induction h as [|y h IH]; simpl; [reflexivity|]. now rewrite IH. Qed.

Lemma closed_ptr (h : Heap) (l pl : loc) (k : Key) :
  heap_closed h = true -> read h l = Some (OEntity k (Some pl)) -> pl < List.length h.
Proof.
  unfold heap_closed. intros Hc Hr. rewrite forallb_forall in Hc.
  apply nth_error_In in Hr. specialize (Hc _ Hr). simpl in Hc.
  now apply Nat.ltb_lt.
Qed.

Lemma entity_props_app (h ext : Heap) (l : loc) :
  heap_closed h = true -> l < List.length h ->
  entity_props (List.app h ext) l = entity_props h l.
Proof.
  intros Hc Hl. unfold entity_props. rewrite read_app_lt by exact Hl.
  destruct (read h l) as [[k [pl|]|m]|] eqn:Hr; try reflexivity.
  rewrite read_app_lt; [reflexivity|]. exact (closed_ptr h l pl k Hc Hr).
Qed.

Lemma get_prop_app (h ext : Heap) (l : loc) (p : string) :
  heap_closed h = true -> l < List.length h ->
  get_prop (List.app h ext) l p = get_prop h l p.
Proof. intros Hc Hl. unfold get_prop. now rewrite entity_props_app. Qed.

Lemma entity_key_app (h ext : Heap) (l : loc) :
  l < List.length h -> entity_key (List.app h ext) l = entity_key h l.
Proof. intros Hl. unfold entity_key. now rewrite read_app_lt. Qed.

Lemma points_below_mono (n n' : nat) (o : Obj) :
  n <= n' -> points_below n o = true -> points_below n' o = true.
Proof.
  destruct o as [k [pl|]|m]; simpl; try reflexivity.
  rewrite !Nat.ltb_lt. lia.
Qed.

Lemma heap_closed_app (h ext : Heap) :
  heap_closed h = true -> forallb (points_below (List.length (List.app h ext))) ext = true ->
  heap_closed (List.app h ext) = true.
Proof.
  unfold heap_closed. intros Hh He. rewrite forallb_app, He, andb_true_r.
  rewrite forallb_forall in *. intros o Ho.
  apply (points_below_mono (List.length h)); [rewrite length_app; lia | now apply Hh].
Qed.

Lemma in_heap_lt (h : Heap) (ls : list loc) (l : loc) :
  in_heap h ls = true -> In l ls -> l < List.length h.
Proof.
  unfold in_heap. rewrite forallb_forall. intros H Hl. apply Nat.ltb_lt. now apply H.
Qed.

Lemma lookup_set_prop (n k : string) (v : PropertyValue) (m : Properties) :
  lookup n (set_prop k v m) = if String.eqb k n then Some v else lookup n m.
Proof.
  induction m as [|[k' w] m IH]; simpl.
  - now destruct (String.eqb k n).
  - destruct (String.eqb k' k) eqn:E.
    + apply String.eqb_eq in E as ->. simpl. now destruct (String.eqb k n).
    + simpl. rewrite IH. destruct (String.eqb k' n) eqn:E1, (String.eqb k n) eqn:E2;
        try reflexivity.
      apply String.eqb_eq in E1, E2. subst. now rewrite String.eqb_refl in E.
Qed.


Lemma map_get_set (s k : string) (v : loc) (m : list (string * loc)) :
  map_get s (map_set k v m) = if String.eqb k s then Some v else map_get s m.
Proof.
  induction m as [|[k' w] m IH]; simpl.
  - reflexivity.
  - destruct (String.eqb k' k) eqn:E.
    + apply String.eqb_eq in E as ->. simpl. now destruct (String.eqb k s).
    + simpl. rewrite IH. destruct (String.eqb k' s) eqn:E1, (String.eqb k s) eqn:E2;
        try reflexivity.
      apply String.eqb_eq in E1, E2. subst. now rewrite String.eqb_refl in E.
Qed.

Lemma str_length_app (a b : string) :
  String.length (a ++ b) = String.length a + String.length b.
Proof. induction a as [|x a IH]; simpl; [reflexivity | now rewrite IH]. Qed.

Lemma str_app_cancel_r (a b s : string) : a ++ s = b ++ s -> a = b.
Proof.
  intros H.
  assert (Hl : String.length a = String.length b).
  { apply (f_equal String.length) in H. rewrite !str_length_app in H. lia. }
  revert b H Hl. induction a as [|x a IH]; intros [|y b] H Hl; simpl in *;
    try discriminate; [reflexivity|].
  injection H as -> H. f_equal. apply IH; [exact H | lia].
Qed.

Section Props.
Variable keyToString : Key -> string -> option string -> string.
Variables (project : string) (namespace : option string).
Variables (emap : list (string * loc)) (h : Heap) (r : loc).

Local Notation matched := (matched keyToString project namespace emap h r).
Local Notation merge_props := (merge_props keyToString project namespace emap h r).

Lemma merge_props_flag (ps : list string) (cur : Properties) (m : bool) :
  snd (merge_props ps cur m)
  = m || existsb (fun p => match matched p with Some _ => true | None => false end) ps.
Proof.
  revert cur m. induction ps as [|p ps IH]; intros cur m; simpl.
  - now rewrite orb_false_r.
  - destruct (matched p); rewrite IH; [now rewrite orb_true_r | reflexivity].
Qed.

Lemma merge_props_other (ps : list string) (cur : Properties) (m : bool) (n : string) :
  (forall p, In p ps -> matched p <> None -> n <> p ++ "_joined") ->
  lookup n (fst (merge_props ps cur m)) = lookup n cur.
Proof.
  revert cur m. induction ps as [|p ps IH]; intros cur m Hn; simpl; [reflexivity|].
  destruct (matched p) as [j|] eqn:Hm.
  - rewrite IH by (intros q Hq; apply Hn; now right).
    rewrite lookup_set_prop.
    destruct (String.eqb (p ++ "_joined") n) eqn:E; [|reflexivity].
    apply String.eqb_eq in E. exfalso. apply (Hn p); [now left | congruence | now symmetry].
  - apply IH. intros q Hq. apply Hn. now right.
Qed.

Lemma merge_props_joined (ps : list string) (cur : Properties) (m : bool) (p : string)
    (j : loc) :
  In p ps -> matched p = Some j ->
  lookup (p ++ "_joined") (fst (merge_props ps cur m))
  = Some (entityValue (entity_props h j)).
Proof.
  revert cur m. induction ps as [|q ps IH]; intros cur m Hin Hm; [destruct Hin|].
  destruct (in_dec string_dec p ps) as [Hps|Hps].
  - simpl. destruct (matched q); apply IH; assumption.
  - destruct Hin as [->|Hin]; [|contradiction].
    simpl. rewrite Hm. rewrite merge_props_other.
    + rewrite lookup_set_prop, String.eqb_refl. reflexivity.
    + intros q Hq _ He. apply str_app_cancel_r in He. subst. contradiction.
Qed.

End Props.

Section Index.
Variable keyToString : Key -> string -> option string -> string.
Variables (project : string) (namespace : option string) (h : Heap).

Lemma entityMap_sound_gen (l : list loc) (m : list (string * loc)) (s : string) (j : loc) :
  map_get s (fold_left (fun m e => match entity_key h e with
                                   | Some k => map_set (keyToString k project namespace) e m
                                   | None => m
                                   end) l m) = Some j ->
  (In j l /\ exists kj, entity_key h j = Some kj /\ keyToString kj project namespace = s)
  \/ map_get s m = Some j.
Proof.
  revert m. induction l as [|e l IH]; intros m H; simpl in H; [now right|].
  destruct (IH _ H) as [[Hin Hk]|Hm]; [left; split; [now right | exact Hk]|].
  destruct (entity_key h e) as [k|] eqn:Hek; [|now right].
  rewrite map_get_set in Hm.
  destruct (String.eqb (keyToString k project namespace) s) eqn:E; [|now right].
  injection Hm as <-. apply String.eqb_eq in E.
  left. split; [now left|]. now exists k.
Qed.

Lemma entityMap_sound (joined : list loc) (s : string) (j : loc) :
  map_get s (entityMap keyToString project namespace h joined) = Some j ->
  In j joined /\ exists kj, entity_key h j = Some kj /\ keyToString kj project namespace = s.
Proof.
  intros H. destruct (entityMap_sound_gen _ _ _ _ H) as [Hj|Hj]; [exact Hj|discriminate].
Qed.

Lemma entityMap_complete_gen (l : list loc) (m : list (string * loc)) (s : string) :
  ((exists j kj, In j l /\ entity_key h j = Some kj
                 /\ keyToString kj project namespace = s) \/ map_get s m <> None) ->
  map_get s (fold_left (fun m e => match entity_key h e with
                                   | Some k => map_set (keyToString k project namespace) e m
                                   | None => m
                                   end) l m) <> None.
Proof.
  revert m. induction l as [|e l IH]; intros m H; simpl.
  - destruct H as [[j [kj [[] _]]]|H]; exact H.
  - apply IH. destruct H as [[j [kj [[<-|Hin] [Hk Hs]]]]|H].
    + right. rewrite Hk, map_get_set, Hs, String.eqb_refl. discriminate.
    + left. now exists j, kj.
    + right. destruct (entity_key h e) as [k|]; [|exact H].
      rewrite map_get_set. now destruct (String.eqb _ s).
Qed.

Lemma entityMap_complete (joined : list loc) (j : loc) (kj : Key) :
  In j joined -> entity_key h j = Some kj ->
  exists j', map_get (keyToString kj project namespace)
               (entityMap keyToString project namespace h joined) = Some j'.
Proof.
  intros Hin Hk.
  destruct (map_get (keyToString kj project namespace)
              (entityMap keyToString project namespace h joined)) as [j'|] eqn:E;
    [now exists j'|].
  exfalso. revert E. apply entityMap_complete_gen. left. now exists j, kj.
Qed.

End Index.

Lemma merge_row_eq (keyToString : Key -> string -> option string -> string)
    (project : string) (namespace : option string) (emap : list (string * loc))
    (joinProperties : list string) (H : Heap) (r : loc) :
  heap_closed H = true -> r < List.length H ->
  (forall s j, map_get s emap = Some j -> j < List.length H) ->
  merge_row keyToString project namespace emap joinProperties H r =
    let '(cur, modified) :=
      merge_props keyToString project namespace emap H r joinProperties (entity_props H r) false in
    if modified then
      match read H r with
      | Some (OEntity k _) =>
          (List.app (List.app H [OProps cur]) [OEntity k (Some (List.length H))],
           List.length (List.app H [OProps cur]))
      | _ => (List.app H [OProps cur], r)
      end
    else (List.app H [OProps cur], r).
Proof.
  intros Hc Hr Hem. unfold merge_row, alloc.
  match goal with
  | |- context [fold_left ?F joinProperties (?H0, false)] =>
      assert (Hfold : forall ps cur m,
                fold_left F ps (List.app H [OProps cur], m)
                = let '(c, m') := merge_props keyToString project namespace emap H r ps cur m in
                  (List.app H [OProps c], m'))
  end.
  { induction ps as [|p ps IH]; intros cur m; [reflexivity|].
    cbn [fold_left merge_props].
    rewrite get_prop_app by assumption.
    unfold matched.
    destruct (get_prop H r p) as [[]|]; try apply IH.
    destruct (map_get (keyToString k project namespace) emap) as [j|] eqn:Hj; [|apply IH].
    rewrite read_app_at, entity_props_app by (try assumption; exact (Hem _ _ Hj)).
    rewrite store_last. apply IH. }
  rewrite Hfold.
  destruct (merge_props keyToString project namespace emap H r joinProperties
              (entity_props H r) false) as [cur [|]]; [|reflexivity].
  rewrite read_app_lt by exact Hr.
  destruct (read H r) as [[k pl|m]|]; reflexivity.
Qed.

Lemma get_prop_entity (h : Heap) (r : loc) (p : string) (v : PropertyValue) :
  get_prop h r p = Some v -> exists k pl, read h r = Some (OEntity k (Some pl)).
Proof.
  unfold get_prop, entity_props.
  destruct (read h r) as [[k [pl|]|m]|]; simpl; try discriminate.
  intros _. now exists k, pl.
Qed.

Section Rows.
Variable keyToString : Key -> string -> option string -> string.
Variables (project : string) (namespace : option string).
Variables (h : Heap) (joined : list loc) (joinProperties : list string).
Hypothesis Hclosed : heap_closed h = true.
Hypothesis Hjoined : in_heap h joined = true.

Local Notation emap := (entityMap keyToString project namespace h joined).
Local Notation matched := (matched keyToString project namespace emap).
Local Notation resolves := (resolves keyToString project namespace h joined).

Lemma emap_below (s : string) (j : loc) : map_get s emap = Some j -> j < List.length h.
Proof.
  intros Hs. apply entityMap_sound in Hs as [Hin _].
  exact (in_heap_lt _ _ _ Hjoined Hin).
Qed.

Lemma matched_resolves (r : loc) (p : string) (j : loc) :
  matched h r p = Some j -> resolves r p j.
Proof.
  unfold Readings.matched, Readings.resolves.
  destruct (get_prop h r p) as [[]|]; try discriminate.
  intros Hs. apply entityMap_sound in Hs as [Hin [kj [Hk Hs]]].
  exists k, kj. repeat split; assumption.
Qed.

Lemma resolves_matched (r : loc) (p : string) (j0 : loc) :
  resolves r p j0 -> exists j, matched h r p = Some j.
Proof.
  intros [k [kj [Hp [Hin [Hk Hs]]]]]. unfold Readings.matched. rewrite Hp, <- Hs.
  exact (entityMap_complete _ _ _ _ _ _ _ Hin Hk).
Qed.

Lemma merge_props_app (ext : Heap) (r : loc) (ps : list string) (cur : Properties) (m : bool) :
  r < List.length h ->
  Readings.merge_props keyToString project namespace emap (List.app h ext) r ps cur m
  = Readings.merge_props keyToString project namespace emap h r ps cur m.
Proof.
  intros Hr. revert cur m. induction ps as [|p ps IH]; intros cur m; [reflexivity|].
  cbn [Readings.merge_props]. unfold Readings.matched.
  rewrite get_prop_app by assumption.
  destruct (get_prop h r p) as [[]|]; try apply IH.
  destruct (map_get (keyToString k project namespace) emap) as [j|] eqn:Hj; [|apply IH].
  rewrite entity_props_app by (try assumption; exact (emap_below _ _ Hj)).
  apply IH.
Qed.

Lemma merge_row_spec (ext0 : Heap) (r : loc) :
  heap_closed (List.app h ext0) = true -> r < List.length h ->
  let '(H1, r') := merge_row keyToString project namespace emap joinProperties
                     (List.app h ext0) r in
  (exists ext, H1 = List.app (List.app h ext0) ext) /\ heap_closed H1 = true
  /\ forall ext, joined_row keyToString project namespace h (List.app H1 ext) joined
                   joinProperties r r'.
Proof.
  intros HH Hr.
  assert (Hr' : r < List.length (List.app h ext0)) by (rewrite length_app; lia).
  rewrite merge_row_eq by (try assumption; intros s j Hs;
                           pose proof (emap_below _ _ Hs); rewrite length_app; lia).
  rewrite entity_props_app, merge_props_app by assumption.
  pose proof (merge_props_flag keyToString project namespace emap h r joinProperties
                (entity_props h r) false) as Hflag.
  pose proof (fun n => merge_props_other keyToString project namespace emap h r joinProperties
                (entity_props h r) false n) as Hother.
  pose proof (fun p j => merge_props_joined keyToString project namespace emap h r joinProperties
                (entity_props h r) false p j) as Hjoin.
  destruct (Readings.merge_props keyToString project namespace emap h r joinProperties
              (entity_props h r) false) as [cur modified].
  simpl in Hflag, Hother, Hjoin.
  destruct modified.
  - symmetry in Hflag. apply existsb_exists in Hflag as [p [Hp Hm]].
    destruct (matched h r p) as [j|] eqn:Hmj; [|discriminate].
    assert (Hres := matched_resolves _ _ _ Hmj).
    destruct Hres as [k [kj [Hgp _]]].
    destruct (get_prop_entity _ _ _ _ Hgp) as [kr [pl Hread]].
    rewrite read_app_lt, Hread by exact Hr.
    split; [|split].
    + exists [OProps cur; OEntity kr (Some (List.length (List.app h ext0)))].
      now rewrite <- app_assoc.
    + rewrite <- app_assoc. apply heap_closed_app; [exact HH|].
      simpl. rewrite !length_app. simpl. apply andb_true_intro; split; [|reflexivity].
      apply Nat.ltb_lt. lia.
    + intros ext. split.
      * intros Hnone. exfalso. apply (Hnone p j Hp). now apply matched_resolves.
      * intros _. exists kr, (List.length (List.app h ext0)), cur.
        split; [unfold entity_key; now rewrite Hread|].
        split; [rewrite !length_app; simpl; lia|].
        split; [rewrite length_app; lia|].
        split; [rewrite length_app; simpl; lia|].
        split.
        { rewrite <- app_assoc. apply read_app_at. }
        split.
        { rewrite <- (app_assoc (List.app (List.app h ext0) [OProps cur])).
          rewrite <- (app_assoc (List.app h ext0) [OProps cur]).
          apply read_app_at. }
        split.
        { intros q j0 Hq Hq0. destruct (resolves_matched _ _ _ Hq0) as [jq Hjq].
          exists jq. split; [now apply matched_resolves|]. exact (Hjoin q jq Hq Hjq). }
        { intros n Hn. apply Hother. intros q Hq Hmq.
          destruct (matched h r q) as [jq|] eqn:Hjq; [|congruence].
          apply (Hn q jq Hq). now apply matched_resolves. }
  - split; [|split].
    + now exists [OProps cur].
    + apply heap_closed_app; [exact HH|]. reflexivity.
    + intros ext. split; [reflexivity|].
      intros [p [j [Hp Hpj]]]. exfalso.
      destruct (resolves_matched _ _ _ Hpj) as [j' Hj'].
      assert (Hex : existsb (fun p => match matched h r p with
                                      | Some _ => true | None => false end)
                      joinProperties = true).
      { apply existsb_exists. exists p. now rewrite Hj'. }
      rewrite Hex in Hflag. discriminate.
Qed.

Lemma merge_rows_spec (rows : list loc) (ext0 : Heap) :
  in_heap h rows = true -> heap_closed (List.app h ext0) = true ->
  let '(h', out) := merge_rows keyToString project namespace emap joinProperties
                      (List.app h ext0) rows in
  (exists ext, h' = List.app (List.app h ext0) ext)
  /\ Forall2 (joined_row keyToString project namespace h h' joined joinProperties) rows out.
Proof.
  revert ext0. induction rows as [|r rows IH]; intros ext0 Hrows HH.
  - split; [exists []; now rewrite app_nil_r | constructor].
  - simpl in Hrows. apply andb_prop in Hrows as [Hr Hrows]. apply Nat.ltb_lt in Hr.
    cbn [merge_rows].
    pose proof (merge_row_spec ext0 r HH Hr) as Hrow.
    destruct (merge_row keyToString project namespace emap joinProperties
                (List.app h ext0) r) as [H1 r'].
    destruct Hrow as [[ext1 ->] [HH1 Hrow]].
    rewrite <- app_assoc in HH1 |- *.
    pose proof (IH (List.app ext0 ext1) Hrows HH1) as Hrest.
    destruct (merge_rows keyToString project namespace emap joinProperties
                (List.app h (List.app ext0 ext1)) rows) as [h' out].
    destruct Hrest as [[ext2 ->] Hall].
    split.
    + exists (List.app ext1 ext2). now rewrite !app_assoc.
    + constructor; [|exact Hall]. rewrite <- (app_assoc h ext0 ext1) in Hrow. exact (Hrow ext2).
Qed.

End Rows.

End MergeFacts.

(** [C4] The merge of fetched rows into the result rows. Take a heap [h] in
    which every entity's property map is allocated, result rows and fetched
    rows allocated in [h]. Then [finalEntities] only appends to the heap, so
    no object of [h] (no input row, property map or fetched row) is changed.
    For each input row [r] and output row [r']:
    - if no configured property of [r] holds a key canonically equal to the
      key of a fetched row, [r'] is [r] itself;
    - otherwise [r'] is a fresh entity with the key of [r] and a fresh
      property map [m]. For each configured property [p] that resolves,
      [m] maps [p_joined] to an [entityValue] wrapping the properties of a
      fetched row whose key canonically equals the one [p] holds. Every
      other name reads in [m] as in the properties of [r].
    A fetched row without properties wraps the empty mapping. *)
Theorem finalEntities_join (keyToString : Key -> string -> option string -> string)
    (project : string) (namespace : option string) (h : QueryPage.Heap)
    (rows joined : list QueryPage.loc) (joinProperties : list string) :
  Readings.heap_closed h = true -> Readings.in_heap h rows = true ->
  Readings.in_heap h joined = true ->
  let '(h', out) :=
    QueryPage.finalEntities keyToString project namespace h (Some rows) (Some joined)
      joinProperties in
  (exists ext, h' = List.app h ext)
  /\ Forall2 (Readings.joined_row keyToString project namespace h h' joined joinProperties)
       rows out
  /\ (forall j kj, QueryPage.read h j = Some (QueryPage.OEntity kj None) ->
        QueryPage.entity_props h j = []).
Proof.
  intros Hc Hrows Hj.
  assert (Hempty : forall j kj, QueryPage.read h j = Some (QueryPage.OEntity kj None) ->
                     QueryPage.entity_props h j = []).
  { intros j kj Hr. unfold QueryPage.entity_props. now rewrite Hr. }
  destruct joinProperties as [|p ps].
  - simpl. split; [exists []; now rewrite app_nil_r|]. split; [|exact Hempty].
    clear Hrows. induction rows as [|r rows IH]; constructor; [|exact IH].
    split; [reflexivity|]. intros [q [j [[] _]]].
  - unfold QueryPage.finalEntities.
    assert (Hc0 : Readings.heap_closed (List.app h []) = true) by now rewrite app_nil_r.
    pose proof (MergeFacts.merge_rows_spec keyToString project namespace h joined (p :: ps)
                  Hc Hj rows [] Hrows Hc0) as Hspec.
    rewrite app_nil_r in Hspec.
    destruct (QueryPage.merge_rows keyToString project namespace
                (QueryPage.entityMap keyToString project namespace h joined) (p :: ps) h rows)
      as [h' out].
    destruct Hspec as [[ext ->] Hall].
    split; [now exists ext|]. split; [exact Hall | exact Hempty].
Qed.

Lemma finalEntities_join_witness :
  Readings.heap_closed Samples.join_heap = true
  /\ Readings.in_heap Samples.join_heap [0; 2] = true
  /\ Readings.in_heap Samples.join_heap [4] = true
  /\ let '(h', out) := QueryPage.finalEntities Samples.path_string "proj" None Samples.join_heap
                         (Some [0; 2]) (Some [4]) ["owner"] in
     (exists ext, h' = List.app Samples.join_heap ext)
     /\ Forall2 (Readings.joined_row Samples.path_string "proj" None Samples.join_heap h' [4]
                  ["owner"]) [0; 2] out
     /\ (forall j kj, QueryPage.read Samples.join_heap j = Some (QueryPage.OEntity kj None) ->
           QueryPage.entity_props Samples.join_heap j = []).
Proof.
  split; [reflexivity|]. split; [reflexivity|]. split; [reflexivity|].
  apply finalEntities_join; reflexivity.
Defined.

(** ** Further properties of the page code *)

Module HistoryFacts.
Import QueryHistory.

Lemma slice_last_suffix {A} (n : nat) (xs : list A) :
  exists pre, xs = List.app pre (slice_last n xs).
Proof. exists (firstn (List.length xs - n) xs). unfold slice_last. now rewrite firstn_skipn. Qed.

Lemma slice_last_length {A} (n : nat) (xs : list A) :
  List.length (slice_last n xs) <= n.
Proof. unfold slice_last. rewrite length_skipn. lia. Qed.

Lemma slice_last_app_single {A} (n : nat) (l : list A) (x : A) :
  0 < n ->
  exists pre, slice_last n (List.app l [x]) = List.app pre [x] /\ (exists pre', l = List.app pre' pre).
Proof.
  intros Hn. unfold slice_last. rewrite length_app. simpl.
  rewrite skipn_app.
  replace (List.length l + 1 - n - List.length l) with 0 by lia. simpl.
  exists (skipn (List.length l + 1 - n) l). split; [reflexivity|].
  exists (firstn (List.length l + 1 - n) l). now rewrite firstn_skipn.
Qed.

Lemma NoDup_app_single {A} (l : list A) (x : A) :
  NoDup l -> ~ In x l -> NoDup (List.app l [x]).
Proof.
  intros Hl Hx. apply NoDup_app; [exact Hl | repeat constructor; simpl; tauto |].
  intros y Hy [<-|[]]. contradiction.
Qed.

Lemma NoDup_suffix {A} (pre l : list A) : NoDup (List.app pre l) -> NoDup l.
Proof. intros H. now apply NoDup_app_remove_l in H. Qed.

Lemma not_in_filter_neq (l : list string) (q : string) :
  ~ In q (filter (fun x => negb (String.eqb x q)) l).
Proof.
  intros H. apply filter_In in H as [_ H]. rewrite String.eqb_refl in H. discriminate.
Qed.

Lemma filter_neq_idem (l : list string) (q : string) :
  filter (fun x => negb (String.eqb x q)) (filter (fun x => negb (String.eqb x q)) l)
  = filter (fun x => negb (String.eqb x q)) l.
Proof.
  induction l as [|x l IH]; simpl; [reflexivity|].
  destruct (String.eqb x q) eqn:E; simpl; [exact IH|]. rewrite E. simpl. now rewrite IH.
Qed.

Lemma count_occ_filter_neq (l : list string) (q x : string) :
  x <> q ->
  count_occ string_dec (filter (fun y => negb (String.eqb y q)) l) x = count_occ string_dec l x.
Proof.
  intros Hx. induction l as [|y l IH]; simpl; [reflexivity|].
  destruct (String.eqb y q) eqn:E; simpl.
  - apply String.eqb_eq in E. subst. destruct (string_dec q x); [congruence | exact IH].
  - destruct (string_dec y x); now rewrite IH.
Qed.

End HistoryFacts.


Module BuilderStateFacts.
Import QueryBuilder QueryBuilderState.

Lemma filter_andb {A} (f g : A -> bool) (l : list A) :
  filter (fun x => f x && g x) l = filter g (filter f l).
Proof.
  induction l as [|x l IH]; simpl; [reflexivity|].
  destruct (f x); simpl; [destruct (g x); simpl; now rewrite IH | exact IH].
Qed.

Lemma filter_idem {A} (f : A -> bool) (l : list A) : filter f (filter f l) = filter f l.
Proof.
  induction l as [|x l IH]; simpl; [reflexivity|].
  destruct (f x) eqn:E; simpl; [rewrite E; now rewrite IH | exact IH].
Qed.

Lemma same_nonblank (cs1 cs2 : list WhereClause) (kind orderField : string)
    (dir : SortDirection) (st : RunState) :
  filter (fun c => not_blank (field c)) cs1 = filter (fun c => not_blank (field c)) cs2 ->
  buildQuery kind cs1 orderField dir = buildQuery kind cs2 orderField dir
  /\ expandInClauses cs1 = expandInClauses cs2
  /\ runQuery kind cs1 orderField dir st = runQuery kind cs2 orderField dir st.
Proof.
  intros H.
  assert (Hb : buildQuery kind cs1 orderField dir = buildQuery kind cs2 orderField dir)
    by (unfold buildQuery; now rewrite H).
  assert (He : expandInClauses cs1 = expandInClauses cs2).
  { unfold expandInClauses.
    rewrite (filter_andb (fun c => not_blank (field c)) is_in cs1),
            (filter_andb (fun c => not_blank (field c)) is_in cs2),
            (filter_andb (fun c => not_blank (field c)) (fun c => negb (is_in c)) cs1),
            (filter_andb (fun c => not_blank (field c)) (fun c => negb (is_in c)) cs2), H.
    reflexivity. }
  split; [exact Hb|]. split; [exact He|].
  unfold runQuery. now rewrite He.
Qed.

Lemma expand_loop_nonempty (ins : list WhereClause) (combos vs : list (list WhereClause)) :
  expand_loop ins combos = Ok vs -> combos <> [] -> vs <> [].
Proof.
  revert combos. induction ins as [|c ins IH]; intros combos H Hne; simpl in H.
  - congruence.
  - destruct (splitInValues (value c)) as [|v0 vs0] eqn:Hv; [discriminate|].
    apply (IH _ H). destruct combos as [|cb cbs]; [congruence|]. simpl. discriminate.
Qed.

Lemma expandInClauses_bounds (cs : list WhereClause) (vs : list (list WhereClause)) :
  expandInClauses cs = Ok vs -> 1 <= List.length vs <= 50.
Proof.
  unfold expandInClauses, bind.
  destruct (expand_loop _ _) as [combos|e] eqn:Hl; [|discriminate].
  destruct (50 <? List.length combos)%nat eqn:Hn; [discriminate|].
  intros Hv. injection Hv as <-. apply Nat.ltb_ge in Hn. split; [|exact Hn].
  destruct combos; [|simpl; lia].
  exfalso. exact (expand_loop_nonempty _ _ _ Hl ltac:(discriminate) eq_refl).
Qed.

Lemma map_result_length {A B} (f : A -> result B) (xs : list A) (ys : list B) :
  map_result f xs = Ok ys -> List.length ys = List.length xs.
Proof.
  intros H. apply ResultFacts.map_result_ok in H. now apply Forall2_length in H.
Qed.

End BuilderStateFacts.

(** [X1] Storing a query in the history ([storeQuery] of [useQueryHistory]): a blank
    query leaves the history unchanged; otherwise the stored copy equals the new list, the
    query is its last entry with no earlier copy, the list holds at most
    [MAX_QUERY_HISTORY] entries, it is a suffix of the old list without the query followed by
    the query, and a duplicate-free history stays duplicate-free. *)
Theorem storeQuery_history (q : string) (hist : QueryHistory.History) :
  (JsString.trim q = "" -> QueryHistory.storeQuery q hist = hist)
  /\ (JsString.trim q <> "" ->
      let hist' := QueryHistory.storeQuery q hist in
      QueryHistory.stored hist' = Some (QueryHistory.queries hist')
      /\ (exists pre, QueryHistory.queries hist' = List.app pre [q] /\ ~ In q pre)
      /\ List.length (QueryHistory.queries hist') <= QueryHistory.MAX_QUERY_HISTORY
      /\ (exists dropped,
            List.app (filter (fun x => negb (String.eqb x q)) (QueryHistory.queries hist)) [q]
            = List.app dropped (QueryHistory.queries hist'))
      /\ (NoDup (QueryHistory.queries hist) -> NoDup (QueryHistory.queries hist'))).
Proof.
  split.
  { intros Hq. unfold QueryHistory.storeQuery. now rewrite Hq. }
  intros Hq. unfold QueryHistory.storeQuery.
  apply String.eqb_neq in Hq. rewrite Hq. cbv zeta.
  set (l := filter (fun x => negb (String.eqb x q)) (QueryHistory.queries hist)).
  assert (Hnl : ~ In q l) by apply HistoryFacts.not_in_filter_neq.
  assert (Hnd : NoDup (QueryHistory.queries hist) -> NoDup (List.app l [q])).
  { intros H. apply HistoryFacts.NoDup_app_single; [now apply NoDup_filter | exact Hnl]. }
  destruct (QueryHistory.MAX_QUERY_HISTORY <? List.length (List.app l [q]))%nat eqn:Hlen;
    simpl QueryHistory.queries; simpl QueryHistory.stored.
  - split; [reflexivity|].
    split.
    { destruct (HistoryFacts.slice_last_app_single QueryHistory.MAX_QUERY_HISTORY l q)
        as [pre [Hpre [pre' Hl]]]; [unfold QueryHistory.MAX_QUERY_HISTORY; lia|].
      exists pre. split; [exact Hpre|]. intros Hin. apply Hnl. rewrite Hl.
      apply in_or_app. now right. }
    split; [apply HistoryFacts.slice_last_length|].
    split; [apply HistoryFacts.slice_last_suffix|].
    intros H. destruct (HistoryFacts.slice_last_suffix QueryHistory.MAX_QUERY_HISTORY
                          (List.app l [q])) as [pre Hpre].
    apply (HistoryFacts.NoDup_suffix pre). rewrite <- Hpre. now apply Hnd.
  - apply Nat.ltb_ge in Hlen.
    split; [reflexivity|]. split; [now exists l|]. split; [exact Hlen|].
    split; [now exists []|]. exact Hnd.
Qed.

Lemma storeQuery_history_witness :
  JsString.trim "SELECT * FROM Task" <> ""
  /\ QueryHistory.queries (QueryHistory.storeQuery "SELECT * FROM Task"
       {| QueryHistory.queries := ["SELECT * FROM Task"; "SELECT * FROM User"];
          QueryHistory.stored := None |}) = ["SELECT * FROM User"; "SELECT * FROM Task"]
  /\ List.length (QueryHistory.queries (QueryHistory.storeQuery "SELECT * FROM Task"
       {| QueryHistory.queries := ["SELECT * FROM Task"; "SELECT * FROM User"];
          QueryHistory.stored := None |})) <= QueryHistory.MAX_QUERY_HISTORY.
Proof.
  assert (H : JsString.trim "SELECT * FROM Task" <> "") by discriminate.
  split; [exact H|]. split; [reflexivity|].
  destruct (storeQuery_history "SELECT * FROM Task"
              {| QueryHistory.queries := ["SELECT * FROM Task"; "SELECT * FROM User"];
                 QueryHistory.stored := None |}) as [_ Hs].
  destruct (Hs H) as [_ [_ [Hl _]]]. exact Hl.
Defined.

(** [X2] Deleting a query from the history ([deleteQuery]): the stored copy equals the new
    list, the query no longer occurs in it, every other query keeps its number of
    occurrences; and deleting a non-blank query right after storing it gives back the old
    list without that query, when fewer than [MAX_QUERY_HISTORY] other entries were there. *)
Theorem deleteQuery_history (q : string) (hist : QueryHistory.History) :
  let hist' := QueryHistory.deleteQuery q hist in
  QueryHistory.stored hist' = Some (QueryHistory.queries hist')
  /\ ~ In q (QueryHistory.queries hist')
  /\ (forall x, x <> q ->
        count_occ string_dec (QueryHistory.queries hist') x
        = count_occ string_dec (QueryHistory.queries hist) x)
  /\ (JsString.trim q <> "" ->
      List.length (filter (fun x => negb (String.eqb x q)) (QueryHistory.queries hist))
        < QueryHistory.MAX_QUERY_HISTORY ->
      QueryHistory.queries (QueryHistory.deleteQuery q (QueryHistory.storeQuery q hist))
      = filter (fun x => negb (String.eqb x q)) (QueryHistory.queries hist)).
Proof.
  split; [reflexivity|].
  split; [apply HistoryFacts.not_in_filter_neq|].
  split; [intros x Hx; now apply HistoryFacts.count_occ_filter_neq|].
  intros Hq Hlen. unfold QueryHistory.storeQuery.
  apply String.eqb_neq in Hq. rewrite Hq. cbv zeta.
  rewrite length_app. simpl List.length.
  replace (QueryHistory.MAX_QUERY_HISTORY <?
           List.length (filter (fun x => negb (String.eqb x q)) (QueryHistory.queries hist)) + 1)%nat
    with false by (symmetry; apply Nat.ltb_ge; lia).
  simpl. rewrite filter_app, HistoryFacts.filter_neq_idem. simpl. rewrite String.eqb_refl. simpl.
  apply app_nil_r.
Qed.

Lemma deleteQuery_history_witness :
  JsString.trim "SELECT * FROM Task" <> ""
  /\ QueryHistory.queries (QueryHistory.deleteQuery "SELECT * FROM Task"
       (QueryHistory.storeQuery "SELECT * FROM Task"
         {| QueryHistory.queries := ["SELECT * FROM User"]; QueryHistory.stored := None |}))
     = ["SELECT * FROM User"].
Proof.
  assert (H : JsString.trim "SELECT * FROM Task" <> "") by discriminate.
  split; [exact H|].
  destruct (deleteQuery_history "SELECT * FROM Task"
              {| QueryHistory.queries := ["SELECT * FROM User"]; QueryHistory.stored := None |})
    as [_ [_ [_ Hc]]].
  apply Hc; [exact H | simpl; unfold QueryHistory.MAX_QUERY_HISTORY; lia].
Defined.

(** [X3] The recent-queries dropdown ([RecentQueries]): it is hidden exactly when the history is
    empty; otherwise, of the history entries whose lower-cased text starts with the
    lower-cased trimmed input, it shows the last [min 100 n] ones ([n] the number of such
    entries), newest first; a blank input shows the last 100 entries in reverse order. *)
Theorem recentQueries_view (query : string) (qs : list string) :
  (QueryHistory.recentQueries query qs = None <-> qs = [])
  /\ (forall shown, QueryHistory.recentQueries query qs = Some shown ->
        let matches := filter (fun x => String.prefix (JsString.to_lower (JsString.trim query))
                                          (JsString.to_lower x)) qs in
        List.length shown = Nat.min 100 (List.length matches)
        /\ (exists older, matches = List.app older (rev shown))
        /\ (forall x, In x shown ->
              In x qs /\ String.prefix (JsString.to_lower (JsString.trim query))
                           (JsString.to_lower x) = true)
        /\ (JsString.trim query = "" -> shown = rev (QueryHistory.slice_last 100 qs))).
Proof.
  split.
  { unfold QueryHistory.recentQueries. destruct qs; split; congruence. }
  intros shown Hs. cbv zeta. unfold QueryHistory.recentQueries in Hs.
  destruct qs as [|q0 qs0]; [discriminate|].
  set (f := fun x => String.prefix (JsString.to_lower (JsString.trim query)) (JsString.to_lower x)).
  assert (E : shown = rev (QueryHistory.slice_last 100 (filter f (q0 :: qs0)))).
  { injection Hs as Hs'. exact (eq_sym Hs'). }
  clear Hs. subst shown.
  split.
  { rewrite length_rev. unfold QueryHistory.slice_last. rewrite length_skipn. lia. }
  split.
  { rewrite rev_involutive. apply HistoryFacts.slice_last_suffix. }
  split.
  { intros x Hx. apply in_rev in Hx.
    destruct (HistoryFacts.slice_last_suffix 100 (filter f (q0 :: qs0))) as [pre Hpre].
    assert (Hin : In x (filter f (q0 :: qs0))) by (rewrite Hpre; apply in_or_app; now right).
    apply filter_In in Hin. exact Hin. }
  intros Hq.
  assert (Hall : forall l, filter f l = l).
  { intros l. apply forallb_filter_id. apply forallb_forall. intros x _.
    unfold f. rewrite Hq. change (JsString.to_lower "") with "".
    destruct (JsString.to_lower x); reflexivity. }
  rewrite Hall. reflexivity.
Qed.

Lemma recentQueries_view_witness :
  QueryHistory.recentQueries "  select" ["SELECT * FROM A"; "DELETE"; "select 1"]
    = Some ["select 1"; "SELECT * FROM A"]
  /\ List.length ["select 1"; "SELECT * FROM A"]
     = Nat.min 100 (List.length (filter (fun x => String.prefix
         (JsString.to_lower (JsString.trim "  select")) (JsString.to_lower x))
         ["SELECT * FROM A"; "DELETE"; "select 1"])).
Proof.
  assert (H : QueryHistory.recentQueries "  select" ["SELECT * FROM A"; "DELETE"; "select 1"]
              = Some ["select 1"; "SELECT * FROM A"]) by reflexivity.
  split; [exact H|].
  destruct (recentQueries_view "  select" ["SELECT * FROM A"; "DELETE"; "select 1"]) as [_ Hv].
  destruct (Hv _ H) as [Hl _]. exact Hl.
Defined.

(** [X5] Adding a filter row ([addWhereClause]) appends one clause with an empty field, which
    changes neither the built query, nor the IN expansion, nor the outcome of [runQuery]; when
    the ids were distinct and below the new id's base, they stay distinct. *)
Theorem addWhereClause_inert (now : Z) (cs : list QueryBuilder.WhereClause)
    (kind orderField : string) (dir : QueryBuilder.SortDirection)
    (st : QueryBuilderState.RunState) :
  let cs' := QueryBuilderState.addWhereClause now cs in
  List.length cs' = S (List.length cs)
  /\ QueryBuilder.buildQuery kind cs' orderField dir = QueryBuilder.buildQuery kind cs orderField dir
  /\ QueryBuilder.expandInClauses cs' = QueryBuilder.expandInClauses cs
  /\ QueryBuilderState.runQuery kind cs' orderField dir st
     = QueryBuilderState.runQuery kind cs orderField dir st
  /\ (NoDup (map QueryBuilder.id cs) ->
      Forall (fun c => (QueryBuilder.id c < now + Z.of_nat (List.length cs))%Z) cs ->
      NoDup (map QueryBuilder.id cs')).
Proof.
  cbv zeta.
  assert (Hf : filter (fun c => QueryBuilder.not_blank (QueryBuilder.field c))
                 (QueryBuilderState.addWhereClause now cs)
               = filter (fun c => QueryBuilder.not_blank (QueryBuilder.field c)) cs).
  { unfold QueryBuilderState.addWhereClause. rewrite filter_app. simpl. apply app_nil_r. }
  destruct (BuilderStateFacts.same_nonblank _ _ kind orderField dir st Hf) as [Hb [He Hr]].
  split; [unfold QueryBuilderState.addWhereClause; rewrite length_app; simpl; lia|].
  split; [exact Hb|]. split; [exact He|]. split; [exact Hr|].
  intros Hnd Hlt. unfold QueryBuilderState.addWhereClause. rewrite map_app. simpl.
  apply NoDup_app; [exact Hnd | repeat constructor; simpl; tauto |].
  intros x Hx [Hy|[]]. simpl in Hy. subst x.
  apply in_map_iff in Hx as [c [Hc Hin]].
  rewrite Forall_forall in Hlt. specialize (Hlt c Hin). lia.
Qed.

Lemma addWhereClause_inert_witness :
  let cs := [Samples.age_clause] in
  NoDup (map QueryBuilder.id cs)
  /\ Forall (fun c => (QueryBuilder.id c < 1000 + Z.of_nat (List.length cs))%Z) cs
  /\ NoDup (map QueryBuilder.id (QueryBuilderState.addWhereClause 1000 cs)).
Proof.
  cbv zeta.
  assert (H1 : NoDup (map QueryBuilder.id [Samples.age_clause])) by (repeat constructor; simpl; tauto).
  assert (H2 : Forall (fun c => (QueryBuilder.id c < 1000 + Z.of_nat (List.length [Samples.age_clause]))%Z)
                 [Samples.age_clause]) by (repeat constructor; simpl; lia).
  split; [exact H1|]. split; [exact H2|].
  destruct (addWhereClause_inert 1000 [Samples.age_clause] "Person" "" QueryBuilder.ASC
              {| QueryBuilderState.builtQueries := []; QueryBuilderState.queryError := None |})
    as [_ [_ [_ [_ H]]]].
  exact (H H1 H2).
Defined.

(** [X6] Editing a filter row ([updateWhereClause]) with a patch that does not set the id keeps
    the list of ids; removing the row afterwards ([removeWhereClause]) gives the same list as
    removing it directly; an update of an absent id changes nothing; after removal the id
    does not occur. *)
Theorem updateWhereClause_then_remove (i : Z) (p : QueryBuilderState.Patch)
    (cs : list QueryBuilder.WhereClause) :
  QueryBuilderState.patch_id p = None ->
  map QueryBuilder.id (QueryBuilderState.updateWhereClause i p cs) = map QueryBuilder.id cs
  /\ QueryBuilderState.removeWhereClause i (QueryBuilderState.updateWhereClause i p cs)
     = QueryBuilderState.removeWhereClause i cs
  /\ (~ In i (map QueryBuilder.id cs) -> QueryBuilderState.updateWhereClause i p cs = cs)
  /\ ~ In i (map QueryBuilder.id (QueryBuilderState.removeWhereClause i cs)).
Proof.
  intros Hp. unfold QueryBuilderState.updateWhereClause, QueryBuilderState.removeWhereClause.
  split.
  { rewrite map_map. apply map_ext. intros c.
    destruct (Z.eqb (QueryBuilder.id c) i); [|reflexivity].
    unfold QueryBuilderState.apply_patch. now rewrite Hp. }
  split.
  { induction cs as [|c cs IH]; simpl; [reflexivity|].
    destruct (Z.eqb (QueryBuilder.id c) i) eqn:E; simpl.
    - unfold QueryBuilderState.apply_patch at 1. rewrite Hp. simpl. rewrite E. exact IH.
    - rewrite E. simpl. now rewrite IH. }
  split.
  { intros Hni. induction cs as [|c cs IH]; simpl; [reflexivity|].
    simpl in Hni. destruct (Z.eqb (QueryBuilder.id c) i) eqn:E.
    - apply Z.eqb_eq in E. exfalso. apply Hni. now left.
    - rewrite IH; [reflexivity|]. intros H. apply Hni. now right. }
  intros H. apply in_map_iff in H as [c [Hc Hin]]. apply filter_In in Hin as [_ Hin].
  rewrite Hc, Z.eqb_refl in Hin. discriminate.
Qed.

Lemma updateWhereClause_then_remove_witness :
  let p := {| QueryBuilderState.patch_id := None; QueryBuilderState.patch_field := Some "name";
              QueryBuilderState.patch_operator := None; QueryBuilderState.patch_value := None;
              QueryBuilderState.patch_valueType := None |} in
  QueryBuilderState.patch_id p = None
  /\ QueryBuilderState.removeWhereClause 5
       (QueryBuilderState.updateWhereClause 5 p [Samples.age_clause; Samples.in_clause])
     = QueryBuilderState.removeWhereClause 5 [Samples.age_clause; Samples.in_clause].
Proof.
  cbv zeta. split; [reflexivity|].
  apply (updateWhereClause_then_remove 5 _ [Samples.age_clause; Samples.in_clause]).
  reflexivity.
Defined.

(** [X7] When the kind's fields load, the page blanks the field of every clause whose field
    is neither one of the fields nor [__key__]: ids are kept, every remaining clause has a
    known or empty field, and the built query, the IN expansion and [runQuery] are those of
    the known clauses alone. *)
Theorem reset_fields_query (allFields : list string) (cs : list QueryBuilder.WhereClause)
    (kind orderField : string) (dir : QueryBuilder.SortDirection)
    (st : QueryBuilderState.RunState) :
  let known := fun c => QueryBuilderState.includes allFields (QueryBuilder.field c)
                        || String.eqb (QueryBuilder.field c) "__key__" in
  let cs' := QueryBuilderState.reset_fields allFields cs in
  map QueryBuilder.id cs' = map QueryBuilder.id cs
  /\ (forall c, In c cs' -> known c = true \/ QueryBuilder.field c = "")
  /\ QueryBuilder.buildQuery kind cs' orderField dir
     = QueryBuilder.buildQuery kind (filter known cs) orderField dir
  /\ QueryBuilder.expandInClauses cs' = QueryBuilder.expandInClauses (filter known cs)
  /\ QueryBuilderState.runQuery kind cs' orderField dir st
     = QueryBuilderState.runQuery kind (filter known cs) orderField dir st.
Proof.
  cbv zeta. unfold QueryBuilderState.reset_fields.
  split.
  { rewrite map_map. apply map_ext. intros c. destruct (QueryBuilderState.includes allFields (QueryBuilder.field c) || String.eqb (QueryBuilder.field c) "__key__"); reflexivity. }
  split.
  { intros c Hc. apply in_map_iff in Hc as [c0 [<- _]].
    destruct (QueryBuilderState.includes allFields (QueryBuilder.field c0) || String.eqb (QueryBuilder.field c0) "__key__") eqn:E; [left; exact E | right; reflexivity]. }
  apply BuilderStateFacts.same_nonblank.
  induction cs as [|c cs IH]; simpl; [reflexivity|].
  destruct (QueryBuilderState.includes allFields (QueryBuilder.field c)
            || String.eqb (QueryBuilder.field c) "__key__") eqn:E; simpl.
  - destruct (QueryBuilder.not_blank (QueryBuilder.field c)); [now rewrite IH | exact IH].
  - exact IH.
Qed.

(** [X8] Running the query builder ([runQuery]): on an error the previous queries are kept;
    on success between 1 and 50 queries are shown; with a kind and no IN filter the result is
    the single query [buildQuery] builds, or its error. *)
Theorem runQuery_outcome (kind : string) (cs : list QueryBuilder.WhereClause)
    (orderField : string) (dir : QueryBuilder.SortDirection) (st : QueryBuilderState.RunState) :
  let st' := QueryBuilderState.runQuery kind cs orderField dir st in
  (QueryBuilderState.queryError st' <> None ->
     QueryBuilderState.builtQueries st' = QueryBuilderState.builtQueries st)
  /\ (QueryBuilderState.queryError st' = None ->
      1 <= List.length (QueryBuilderState.builtQueries st') <= 50)
  /\ (kind <> "" ->
      Forall (fun c => QueryBuilder.not_blank (QueryBuilder.field c) = true ->
                       QueryBuilder.is_in c = false) cs ->
      st' = match QueryBuilder.buildQuery kind cs orderField dir with
            | Ok q => {| QueryBuilderState.builtQueries := [q];
                         QueryBuilderState.queryError := None |}
            | Err msg => {| QueryBuilderState.builtQueries := QueryBuilderState.builtQueries st;
                            QueryBuilderState.queryError := Some msg |}
            end).
Proof.
  cbv zeta. unfold QueryBuilderState.runQuery.
  split.
  { destruct (String.eqb kind ""); [reflexivity|].
    destruct (bind _ _); simpl; [congruence | reflexivity]. }
  split.
  { destruct (String.eqb kind ""); [discriminate|].
    destruct (QueryBuilder.expandInClauses cs) as [vs|e] eqn:He; cbn [bind]; [|discriminate].
    destruct (map_result _ vs) as [qs|e] eqn:Hm; [|discriminate].
    intros _. cbn [QueryBuilderState.builtQueries].
    rewrite (BuilderStateFacts.map_result_length _ _ _ Hm).
    exact (BuilderStateFacts.expandInClauses_bounds _ _ He). }
  intros Hk Hno. apply String.eqb_neq in Hk. rewrite Hk.
  assert (Hin : filter (fun c => QueryBuilder.not_blank (QueryBuilder.field c)
                               && QueryBuilder.is_in c) cs = []).
  { induction cs as [|c cs IH]; simpl; [reflexivity|].
    inversion Hno as [|c' cs' Hc Hcs]; subst.
    destruct (QueryBuilder.not_blank (QueryBuilder.field c)) eqn:E; simpl; [|now apply IH].
    rewrite (Hc eq_refl). now apply IH. }
  assert (Hbase : filter (fun c => QueryBuilder.not_blank (QueryBuilder.field c))
                    (filter (fun c => QueryBuilder.not_blank (QueryBuilder.field c)
                                      && negb (QueryBuilder.is_in c)) cs)
                  = filter (fun c => QueryBuilder.not_blank (QueryBuilder.field c)) cs).
  { clear Hin. induction cs as [|c cs IH]; simpl; [reflexivity|].
    inversion Hno as [|c' cs' Hc Hcs]; subst.
    destruct (QueryBuilder.not_blank (QueryBuilder.field c)) eqn:E; simpl; [|now apply IH].
    rewrite (Hc eq_refl). simpl. rewrite E. f_equal. now apply IH. }
  unfold QueryBuilder.expandInClauses. cbv zeta. rewrite Hin. simpl.
  assert (Hq : QueryBuilder.buildQuery kind
                 (filter (fun c => QueryBuilder.not_blank (QueryBuilder.field c)
                                   && negb (QueryBuilder.is_in c)) cs)
                 orderField dir = QueryBuilder.buildQuery kind cs orderField dir).
  { unfold QueryBuilder.buildQuery. now rewrite Hbase. }
  rewrite Hq. destruct (QueryBuilder.buildQuery kind cs orderField dir); reflexivity.
Qed.

Lemma runQuery_outcome_witness :
  let st := {| QueryBuilderState.builtQueries := []; QueryBuilderState.queryError := None |} in
  "Person" <> ""
  /\ Forall (fun c => QueryBuilder.not_blank (QueryBuilder.field c) = true ->
                      QueryBuilder.is_in c = false) [Samples.age_clause]
  /\ QueryBuilderState.runQuery "Person" [Samples.age_clause] "age" QueryBuilder.DESC st
     = match QueryBuilder.buildQuery "Person" [Samples.age_clause] "age" QueryBuilder.DESC with
       | Ok q => {| QueryBuilderState.builtQueries := [q]; QueryBuilderState.queryError := None |}
       | Err msg => {| QueryBuilderState.builtQueries := QueryBuilderState.builtQueries st;
                       QueryBuilderState.queryError := Some msg |}
       end.
Proof.
  cbv zeta.
  assert (H1 : "Person" <> "") by discriminate.
  assert (H2 : Forall (fun c => QueryBuilder.not_blank (QueryBuilder.field c) = true ->
                                QueryBuilder.is_in c = false) [Samples.age_clause])
    by (repeat constructor).
  split; [exact H1|]. split; [exact H2|].
  destruct (runQuery_outcome "Person" [Samples.age_clause] "age" QueryBuilder.DESC
              {| QueryBuilderState.builtQueries := []; QueryBuilderState.queryError := None |})
    as [_ [_ H]].
  exact (H H1 H2).
Defined.

Module TrimFacts.
Import JsString.

Lemma split_aux_app (sep : ascii) (s t cur : string) :
  (forall ch, In ch (list_ascii_of_string s) -> ch <> sep) ->
  split_aux sep (s ++ t) cur = split_aux sep t (cur ++ s).
Proof.
  revert cur. induction s as [|x s IH]; intros cur H; simpl.
  - now rewrite StringFacts.str_app_nil_r.
  - assert (Hx : Ascii.eqb x sep = false)
      by (apply Ascii.eqb_neq; apply H; now left).
    rewrite Hx, IH; [now rewrite StringFacts.str_app_assoc|].
    intros ch Hin. apply H. now right.
Qed.

Lemma split_join (ps : list string) (p cur : string) :
  (forall q ch, In q (p :: ps) -> In ch (list_ascii_of_string q) -> ch <> ","%char) ->
  split_aux ","%char (join ", " (p :: ps)) cur = (cur ++ p) :: map (fun q => " " ++ q) ps.
Proof.
  revert p cur. induction ps as [|q ps IH]; intros p cur H.
  - simpl. rewrite <- (StringFacts.str_app_nil_r p) at 1.
    rewrite split_aux_app; [reflexivity|]. intros ch Hin. apply (H p); [now left | exact Hin].
  - change (join ", " (p :: q :: ps)) with (p ++ ", " ++ join ", " (q :: ps)).
    rewrite split_aux_app by (intros ch Hin; apply (H p); [now left | exact Hin]).
    transitivity ((cur ++ p) :: split_aux ","%char (join ", " (q :: ps)) " "); [reflexivity|].
    rewrite IH; [reflexivity|].
    intros q' ch Hq Hin. apply (H q'); [now right | exact Hin].
Qed.

Lemma trim_space (q : string) : trim (" " ++ q) = trim q.
Proof. reflexivity. Qed.

Lemma list_ascii_app (a b : string) :
  list_ascii_of_string (a ++ b) = List.app (list_ascii_of_string a) (list_ascii_of_string b).
Proof. induction a as [|x a IH]; simpl; [reflexivity | now rewrite IH]. Qed.

Lemma split_aux_no_sep (sep : ascii) (s cur : string) :
  (forall ch, In ch (list_ascii_of_string cur) -> ch <> sep) ->
  forall q, In q (split_aux sep s cur) ->
  forall ch, In ch (list_ascii_of_string q) -> ch <> sep.
Proof.
  revert cur. induction s as [|x s IH]; intros cur Hcur q Hq; simpl in Hq.
  - destruct Hq as [<-|[]]. exact Hcur.
  - destruct (Ascii.eqb x sep) eqn:E.
    + destruct Hq as [<-|Hq]; [exact Hcur|].
      apply (IH "" ltac:(simpl; tauto) q Hq).
    + apply (IH (cur ++ String x "")); [|exact Hq].
      intros ch Hin. rewrite list_ascii_app in Hin. apply in_app_or in Hin as [Hin|[<-|[]]].
      * now apply Hcur.
      * now apply Ascii.eqb_neq.
Qed.

Lemma trim_start_ts (s : string) : list_ascii_of_string (trim_start s) = Readings.ts (list_ascii_of_string s).
Proof. induction s as [|x s IH]; simpl; [reflexivity|]. destruct (is_whitespace x); [exact IH | reflexivity]. Qed.

Lemma trim_list (s : string) :
  list_ascii_of_string (trim s) = rev (Readings.ts (rev (Readings.ts (list_ascii_of_string s)))).
Proof.
  unfold trim, trim_end. rewrite list_ascii_of_string_of_list_ascii, trim_start_ts,
    list_ascii_of_string_of_list_ascii, trim_start_ts. reflexivity.
Qed.

Lemma ts_idem (l : list ascii) : Readings.ts (Readings.ts l) = Readings.ts l.
Proof.
  induction l as [|c l IH]; simpl; [reflexivity|].
  destruct (is_whitespace c) eqn:E; [exact IH | simpl; now rewrite E].
Qed.

Lemma ts_suffix (l : list ascii) : exists pre, l = List.app pre (Readings.ts l).
Proof.
  induction l as [|c l [pre IH]]; simpl; [now exists []|].
  destruct (is_whitespace c); [exists (c :: pre); simpl; now f_equal | now exists []].
Qed.

Lemma ts_snoc (l : list ascii) (c : ascii) :
  is_whitespace c = false -> exists u, Readings.ts (List.app l [c]) = List.app u [c].
Proof.
  intros Hc. induction l as [|a l IH]; simpl.
  - rewrite Hc. now exists [].
  - destruct (is_whitespace a); [exact IH | now exists (a :: l)].
Qed.

Lemma ts_cases (l : list ascii) :
  Readings.ts l = [] \/ exists c l', Readings.ts l = c :: l' /\ is_whitespace c = false.
Proof.
  induction l as [|c l IH]; simpl; [now left|].
  destruct (is_whitespace c) eqn:E; [exact IH | right; now exists c, l].
Qed.

Lemma trim_idem (s : string) : trim (trim s) = trim s.
Proof.
  rewrite <- (string_of_list_ascii_of_string (trim (trim s))),
    <- (string_of_list_ascii_of_string (trim s)).
  f_equal. rewrite trim_list, (trim_list s).
  set (m := Readings.ts (list_ascii_of_string s)).
  assert (Hfix : Readings.ts (rev (Readings.ts (rev m))) = rev (Readings.ts (rev m))).
  { destruct (ts_cases (list_ascii_of_string s)) as [Hm|[c [l' [Hm Hc]]]];
      fold m in Hm; rewrite Hm; [reflexivity|].
    simpl. destruct (ts_snoc (rev l') c Hc) as [u Hu]. rewrite Hu, rev_app_distr.
    simpl. now rewrite Hc. }
  rewrite list_ascii_of_string_of_list_ascii, Hfix, rev_involutive, ts_idem. reflexivity.
Qed.

Lemma trim_chars (s : string) (ch : ascii) :
  In ch (list_ascii_of_string (trim s)) -> In ch (list_ascii_of_string s).
Proof.
  rewrite trim_list. intros H. apply in_rev in H.
  destruct (ts_suffix (rev (Readings.ts (list_ascii_of_string s)))) as [pre Hp].
  assert (H1 : In ch (rev (Readings.ts (list_ascii_of_string s))))
    by (rewrite Hp; apply in_or_app; now right).
  apply in_rev in H1.
  destruct (ts_suffix (list_ascii_of_string s)) as [pre' Hp'].
  rewrite Hp'. apply in_or_app. now right.
Qed.

End TrimFacts.

(** [X9] [parseJoinProperties] (and [splitInValues], the same pipeline) splits at commas,
    trims and drops empty pieces: every piece it returns is non-empty, trimmed and
    comma-free; a list of such pieces joined with [", "] parses back to itself; hence parsing
    the re-joined result of a parse changes nothing. *)
Theorem parseJoinProperties_normal_form :
  (forall s, QueryBuilder.splitInValues s = QueryPage.parseJoinProperties s)
  /\ (forall s q, In q (QueryPage.parseJoinProperties s) ->
        q <> "" /\ JsString.trim q = q /\ ~ In ","%char (list_ascii_of_string q))
  /\ (forall ps, (forall p, In p ps ->
        p <> "" /\ JsString.trim p = p /\ ~ In ","%char (list_ascii_of_string p)) ->
      QueryPage.parseJoinProperties (JsString.join ", " ps) = ps)
  /\ (forall s, QueryPage.parseJoinProperties
                  (JsString.join ", " (QueryPage.parseJoinProperties s))
                = QueryPage.parseJoinProperties s).
Proof.
  assert (Hout : forall s q, In q (QueryPage.parseJoinProperties s) ->
            q <> "" /\ JsString.trim q = q /\ ~ In ","%char (list_ascii_of_string q)).
  { intros s q Hq. unfold QueryPage.parseJoinProperties in Hq.
    apply filter_In in Hq as [Hq Hne]. apply in_map_iff in Hq as [x [<- Hx]].
    split; [intros E; rewrite E in Hne; discriminate|].
    split; [apply TrimFacts.trim_idem|].
    intros Hc. apply TrimFacts.trim_chars in Hc.
    exact (TrimFacts.split_aux_no_sep "," s "" ltac:(simpl; tauto) x Hx _ Hc eq_refl). }
  assert (Hrt : forall ps, (forall p, In p ps ->
            p <> "" /\ JsString.trim p = p /\ ~ In ","%char (list_ascii_of_string p)) ->
          QueryPage.parseJoinProperties (JsString.join ", " ps) = ps).
  { intros [|p ps] H; [reflexivity|].
    unfold QueryPage.parseJoinProperties, JsString.split.
    rewrite TrimFacts.split_join.
    2:{ intros q ch Hq Hin ->. now apply (H q Hq). }
    change ("" ++ p) with p.
    assert (Hm : map JsString.trim (p :: map (fun q => " " ++ q) ps) = p :: ps).
    { cbn [map]. rewrite map_map. f_equal.
      - now apply H; left.
      - rewrite <- (map_id ps) at 2. apply map_ext_in. intros q Hq.
        rewrite TrimFacts.trim_space. now apply H; right. }
    rewrite Hm. apply forallb_filter_id. apply forallb_forall.
    intros q Hq. destruct (H q Hq) as [Hne _]. apply negb_true_iff, String.eqb_neq. exact Hne. }
  split; [reflexivity|]. split; [exact Hout|]. split; [exact Hrt|].
  intros s. apply Hrt. apply Hout.
Qed.

Lemma parseJoinProperties_normal_form_witness :
  (forall p, In p ["owner"; "team"] ->
     p <> "" /\ JsString.trim p = p /\ ~ In ","%char (list_ascii_of_string p))
  /\ QueryPage.parseJoinProperties (JsString.join ", " ["owner"; "team"]) = ["owner"; "team"].
Proof.
  assert (H : forall p, In p ["owner"; "team"] ->
     p <> "" /\ JsString.trim p = p /\ ~ In ","%char (list_ascii_of_string p)).
  { intros p Hp. simpl in Hp. destruct Hp as [<-|[<-|[]]];
      (split; [discriminate|]; split; [reflexivity|];
       intros Hc; simpl in Hc; repeat destruct Hc as [Hc|Hc]; first [discriminate | contradiction]). }
  split; [exact H|].
  destruct parseJoinProperties_normal_form as [_ [_ [Hrt _]]].
  exact (Hrt _ H).
Defined.

Module DqFacts.
Import JsString QueryBuilder.

Lemma escapeDoubleQuoted_cons (x : ascii) (s : string) :
  escapeDoubleQuoted (String x s)
  = (if Ascii.eqb x (ascii_of_nat 92) then bs ++ bs
     else if Ascii.eqb x (ascii_of_nat 34) then bs ++ dq else String x "")
    ++ escapeDoubleQuoted s.
Proof.
  unfold escapeDoubleQuoted. cbn [replace_all].
  destruct (Ascii.eqb x (ascii_of_nat 92)) eqn:E1.
  - apply Ascii.eqb_eq in E1; subst x.
    rewrite StringFacts.replace_all_app. reflexivity.
  - cbn [replace_all]. destruct (Ascii.eqb x (ascii_of_nat 34)); reflexivity.
Qed.

Lemma read_escapeDoubleQuoted (s t : string) :
  Readings.read_dq_string (escapeDoubleQuoted s ++ dq ++ t) = Some (s, t).
Proof.
  induction s as [|x s IH]; [reflexivity|].
  rewrite escapeDoubleQuoted_cons, !StringFacts.str_app_assoc.
  destruct (Ascii.eqb x (ascii_of_nat 92)) eqn:E1.
  - apply Ascii.eqb_eq in E1; subst x. unfold bs. cbn [String.append Readings.read_dq_string].
    rewrite Ascii.eqb_refl. cbn [String.append]. rewrite IH. reflexivity.
  - destruct (Ascii.eqb x (ascii_of_nat 34)) eqn:E2.
    + apply Ascii.eqb_eq in E2; subst x. unfold bs. cbn [String.append].
      unfold dq at 1. cbn [String.append Readings.read_dq_string].
      rewrite Ascii.eqb_refl. cbn [String.append]. rewrite IH. reflexivity.
    + cbn [String.append Readings.read_dq_string]. rewrite E1, E2, IH. reflexivity.
Qed.

End DqFacts.

(** [X10] Timestamp and blob values: a blank trimmed value is an error; otherwise the literal
    is [DATETIME("] (or [BLOB("]) followed by a double-quoted string that, read back with
    backslash escapes, gives exactly the trimmed value and is followed by [")"] alone. *)
Theorem timestamp_blob_literal (c : QueryBuilder.WhereClause) :
  let v := JsString.trim (QueryBuilder.value c) in
  (v = "" ->
     (exists msg, QueryBuilder.parseWhereValue (QueryBuilder.with_valueType c QueryBuilder.VT_timestamp) = Err msg)
     /\ (exists msg, QueryBuilder.parseWhereValue (QueryBuilder.with_valueType c QueryBuilder.VT_blob) = Err msg))
  /\ (v <> "" ->
      (exists body,
         QueryBuilder.parseWhereValue (QueryBuilder.with_valueType c QueryBuilder.VT_timestamp)
         = Ok ("DATETIME(" ++ QueryBuilder.dq ++ body)
         /\ Readings.read_dq_string body = Some (v, ")"))
      /\ (exists body,
         QueryBuilder.parseWhereValue (QueryBuilder.with_valueType c QueryBuilder.VT_blob)
         = Ok ("BLOB(" ++ QueryBuilder.dq ++ body)
         /\ Readings.read_dq_string body = Some (v, ")"))).
Proof.
  cbv zeta. unfold QueryBuilder.parseWhereValue. simpl QueryBuilder.valueType. simpl QueryBuilder.value.
  split.
  - intros Hv. rewrite Hv. simpl. split; eexists; reflexivity.
  - intros Hv. apply String.eqb_neq in Hv. rewrite Hv.
    split; eexists; (split; [reflexivity|]);
      apply DqFacts.read_escapeDoubleQuoted.
Qed.

Lemma timestamp_blob_literal_witness :
  let c := {| QueryBuilder.id := 1; QueryBuilder.field := "note";
              QueryBuilder.operator := QueryBuilder.Op_eq;
              QueryBuilder.value := " say " ++ QueryBuilder.dq ++ "hi" ++ QueryBuilder.dq ++ " ";
              QueryBuilder.valueType := QueryBuilder.VT_string |} in
  JsString.trim (QueryBuilder.value c) <> ""
  /\ QueryBuilder.parseWhereValue (QueryBuilder.with_valueType c QueryBuilder.VT_blob)
     = Ok ("BLOB(" ++ QueryBuilder.dq ++ "say " ++ QueryBuilder.bs ++ QueryBuilder.dq ++ "hi"
           ++ QueryBuilder.bs ++ QueryBuilder.dq ++ QueryBuilder.dq ++ ")")
  /\ (exists body,
        QueryBuilder.parseWhereValue (QueryBuilder.with_valueType c QueryBuilder.VT_timestamp)
        = Ok ("DATETIME(" ++ QueryBuilder.dq ++ body)
        /\ Readings.read_dq_string body = Some (JsString.trim (QueryBuilder.value c), ")")).
Proof.
  intros c.
  assert (H : JsString.trim (QueryBuilder.value c) <> "") by (vm_compute; discriminate).
  split; [exact H|]. split; [vm_compute; reflexivity|].
  exact (proj1 (proj2 (timestamp_blob_literal c) H)).
Defined.


Module LowerFacts.
Import JsString.

Lemma to_lower_char_letter (x y : ascii) :
  to_lower_char x = y -> (97 <= nat_of_ascii y <= 122)%nat ->
  x = y \/ nat_of_ascii x = (nat_of_ascii y - 32)%nat.
Proof.
  intros <-. destruct x as [[] [] [] [] [] [] [] []]; vm_compute; intros H;
    first [now left | now right | lia].
Qed.

Lemma to_lower_char_is (x y : ascii) :
  (97 <= nat_of_ascii y <= 122)%nat ->
  to_lower_char x = y <-> In x [y; ascii_of_nat (nat_of_ascii y - 32)].
Proof.
  intros Hy. split.
  - intros H. destruct (to_lower_char_letter x y H Hy) as [E|E]; [now left|].
    right; left. rewrite <- E. apply ascii_nat_embedding.
  - intros [<-|[<-|[]]].
    + revert Hy. destruct y as [[] [] [] [] [] [] [] []]; vm_compute; intros Hy;
        first [reflexivity | lia].
    + revert Hy. destruct y as [[] [] [] [] [] [] [] []]; vm_compute; intros Hy;
        first [reflexivity | lia].
Qed.

Lemma to_lower_word (s w : string) :
  Forall (fun y => 97 <= nat_of_ascii y <= 122)%nat (list_ascii_of_string w) ->
  to_lower s = w <-> Forall2 Readings.case_of (list_ascii_of_string s) (list_ascii_of_string w).
Proof.
  revert w. induction s as [|x s IH]; intros w Hw; destruct w as [|y w]; simpl.
  - split; constructor.
  - split; [discriminate | intros H; inversion H].
  - split; [discriminate | intros H; inversion H].
  - inversion Hw as [|y' w' Hy Hw']; subst. split.
    + intros H. injection H as H1 H2. constructor.
      * now apply to_lower_char_is.
      * now apply IH.
    + intros H. inversion H as [|x' y' l1 l2 H1 H2]; subst.
      f_equal; [now apply to_lower_char_is | now apply IH].
Qed.

End LowerFacts.

(** [X11] Boolean values: the literal is ["true"] exactly when the trimmed value is [true]
    with each letter in lower or upper case, ["false"] likewise, and no other literal is
    ever produced. *)
Theorem boolean_literal (c : QueryBuilder.WhereClause) :
  let v := list_ascii_of_string (JsString.trim (QueryBuilder.value c)) in
  let r := QueryBuilder.parseWhereValue (QueryBuilder.with_valueType c QueryBuilder.VT_boolean) in
  (r = Ok "true" <-> Forall2 Readings.case_of v (list_ascii_of_string "true"))
  /\ (r = Ok "false" <-> Forall2 Readings.case_of v (list_ascii_of_string "false"))
  /\ (forall out, r = Ok out -> out = "true" \/ out = "false").
Proof.
  cbv zeta. unfold QueryBuilder.parseWhereValue. simpl QueryBuilder.valueType. simpl QueryBuilder.value.
  set (n := JsString.to_lower (JsString.trim (QueryBuilder.value c))).
  assert (Ht := LowerFacts.to_lower_word (JsString.trim (QueryBuilder.value c)) "true"
                  ltac:(repeat constructor; simpl; lia)).
  assert (Hf := LowerFacts.to_lower_word (JsString.trim (QueryBuilder.value c)) "false"
                  ltac:(repeat constructor; simpl; lia)).
  fold n in Ht, Hf. rewrite <- Ht, <- Hf.
  destruct (String.eqb n "true") eqn:E1; [apply String.eqb_eq in E1 | apply String.eqb_neq in E1];
  destruct (String.eqb n "false") eqn:E2; [apply String.eqb_eq in E2 | apply String.eqb_neq in E2
    | apply String.eqb_eq in E2 | apply String.eqb_neq in E2]; simpl.
  - congruence.
  - rewrite E1. split; [tauto|]. split; [split; congruence|]. intros out H; injection H as <-; now left.
  - rewrite E2. split; [split; congruence|]. split; [tauto|]. intros out H; injection H as <-; now right.
  - split; [split; [discriminate | congruence]|]. split; [split; [discriminate | congruence]|].
    intros out H; discriminate.
Qed.

Lemma boolean_literal_witness :
  let c := {| QueryBuilder.id := 2; QueryBuilder.field := "done";
              QueryBuilder.operator := QueryBuilder.Op_eq;
              QueryBuilder.value := " TrUe "; QueryBuilder.valueType := QueryBuilder.VT_string |} in
  Forall2 Readings.case_of (list_ascii_of_string (JsString.trim (QueryBuilder.value c)))
    (list_ascii_of_string "true")
  /\ QueryBuilder.parseWhereValue (QueryBuilder.with_valueType c QueryBuilder.VT_boolean) = Ok "true"
  /\ QueryBuilder.parseWhereValue
       (QueryBuilder.with_valueType (QueryBuilder.with_value c "yes") QueryBuilder.VT_boolean)
     <> Ok "true".
Proof.
  intros c.
  assert (H : Forall2 Readings.case_of (list_ascii_of_string (JsString.trim (QueryBuilder.value c)))
                (list_ascii_of_string "true")).
  { vm_compute. repeat constructor; unfold Readings.case_of; vm_compute; tauto. }
  split; [exact H|].
  split; [exact (proj2 (proj1 (boolean_literal c)) H)|].
  vm_compute. discriminate.
Defined.


Module MinMaxFacts.
Import QueryBuilder.

Lemma js_min_choice (a b : JsNumber.number) : js_min a b = a \/ js_min a b = b.
Proof.
  destruct a, b; unfold js_min; auto;
    try (destruct (JsNumber.ltb _ _); auto).
  destruct s, s0; auto.
Qed.

Lemma js_max_choice (a b : JsNumber.number) : js_max a b = a \/ js_max a b = b.
Proof.
  destruct a, b; unfold js_max; auto;
    try (destruct (JsNumber.ltb _ _); auto).
  destruct s, s0; auto.
Qed.

Lemma fold_choice (f : JsNumber.number -> JsNumber.number -> JsNumber.number)
    (Hf : forall a b, f a b = a \/ f a b = b) (l : list JsNumber.number) (init : JsNumber.number) :
  In (fold_left f l init) (init :: l).
Proof.
  revert init. induction l as [|x l IH]; intros init; simpl; [now left|].
  destruct (IH (f init x)) as [E|E].
  - rewrite <- E. destruct (Hf init x) as [E'|E']; rewrite E'; simpl; auto.
  - simpl; auto.
Qed.

Lemma js_min_inf (x : JsNumber.number) : JsNumber.is_finite x = true -> js_min (S754_infinity false) x = x.
Proof. destruct x; try discriminate; reflexivity. Qed.

Lemma js_max_inf (x : JsNumber.number) : JsNumber.is_finite x = true -> js_max (S754_infinity true) x = x.
Proof. destruct x; try discriminate; reflexivity. Qed.

Lemma numeric_values_finite (rows : list Entity) (field : string) (x : JsNumber.number) :
  In x (numeric_values rows field) -> JsNumber.is_finite x = true.
Proof.
  rewrite AggregationFacts.numeric_values_subset. unfold Readings.numeric_subset.
  intros H. apply filter_In in H. exact (proj2 H).
Qed.

End MinMaxFacts.

(** [X12] The min and max aggregations return one of the finite numbers read from the
    rows' field, never the infinite start value or NaN. *)
Theorem min_max_is_a_value (aggregation : QueryBuilder.Aggregation) (rows : list Entity)
    (field : string) (m : JsNumber.number) :
  aggregation = QueryBuilder.Agg_min \/ aggregation = QueryBuilder.Agg_max ->
  QueryBuilder.calculateAggregation aggregation (Some rows) field = Some m ->
  In m (QueryBuilder.numeric_values rows field) /\ JsNumber.is_finite m = true.
Proof.
  intros Ha Hm.
  assert (Hin : In m (QueryBuilder.numeric_values rows field)).
  { unfold QueryBuilder.calculateAggregation in Hm.
    destruct (QueryBuilder.numeric_values rows field) as [|x l] eqn:Hv.
    - destruct Ha as [-> | ->]; discriminate.
    - assert (Hx : JsNumber.is_finite x = true)
        by (apply (MinMaxFacts.numeric_values_finite rows field); rewrite Hv; now left).
      destruct Ha as [-> | ->]; injection Hm as <-.
      + change (In (fold_left QueryBuilder.js_min l (QueryBuilder.js_min (S754_infinity false) x)) (x :: l)).
        rewrite (MinMaxFacts.js_min_inf x Hx).
        apply (MinMaxFacts.fold_choice _ MinMaxFacts.js_min_choice).
      + change (In (fold_left QueryBuilder.js_max l (QueryBuilder.js_max (S754_infinity true) x)) (x :: l)).
        rewrite (MinMaxFacts.js_max_inf x Hx).
        apply (MinMaxFacts.fold_choice _ MinMaxFacts.js_max_choice). }
  split; [exact Hin|]. exact (MinMaxFacts.numeric_values_finite _ _ _ Hin).
Qed.

Lemma min_max_is_a_value_witness :
  (QueryBuilder.Agg_min = QueryBuilder.Agg_min \/ QueryBuilder.Agg_min = QueryBuilder.Agg_max)
  /\ QueryBuilder.calculateAggregation QueryBuilder.Agg_min (Some Samples.sum_rows) "v"
     = Some (JsNumber.of_string "4.5")
  /\ In (JsNumber.of_string "4.5") (QueryBuilder.numeric_values Samples.sum_rows "v").
Proof.
  assert (H1 : QueryBuilder.Agg_min = QueryBuilder.Agg_min \/ QueryBuilder.Agg_min = QueryBuilder.Agg_max)
    by (left; reflexivity).
  assert (H2 : QueryBuilder.calculateAggregation QueryBuilder.Agg_min (Some Samples.sum_rows) "v"
               = Some (JsNumber.of_string "4.5")) by (vm_compute; reflexivity).
  split; [exact H1|]. split; [exact H2|].
  exact (proj1 (min_max_is_a_value _ _ _ _ H1 H2)).
Defined.

(** [X13] GeoPoint values: a trimmed value without a comma is an error; otherwise only the
    first two comma-separated parts are read, each trimmed and converted with [Number], and
    everything after a second comma is ignored. *)
Theorem geoPoint_two_parts (c : QueryBuilder.WhereClause) :
  let t := JsString.trim (QueryBuilder.value c) in
  let r := QueryBuilder.parseWhereValue (QueryBuilder.with_valueType c QueryBuilder.VT_geoPoint) in
  (~ In ","%char (list_ascii_of_string t) -> exists msg, r = Err msg)
  /\ (forall a b rest,
        ~ In ","%char (list_ascii_of_string a) -> ~ In ","%char (list_ascii_of_string b) ->
        (rest = "" \/ exists more, rest = "," ++ more) ->
        t = a ++ "," ++ b ++ rest ->
        r = (let latitude := JsNumber.of_string (JsString.trim a) in
             let longitude := JsNumber.of_string (JsString.trim b) in
             if JsNumber.is_finite latitude && JsNumber.is_finite longitude
             then Ok ("GEOPT(" ++ JsNumber.to_string latitude ++ ", "
                      ++ JsNumber.to_string longitude ++ ")")
             else Err ("GeoPoint field " ++ QueryBuilder.quoted (QueryBuilder.field c) ++ " must be in "
                       ++ QueryBuilder.dq ++ "lat,lng" ++ QueryBuilder.dq ++ " format."))).
Proof.
  cbv zeta. unfold QueryBuilder.parseWhereValue. simpl QueryBuilder.valueType. simpl QueryBuilder.value.
  simpl QueryBuilder.field.
  split.
  - intros Hno. unfold JsString.split.
    replace (JsString.split_aux "," (JsString.trim (QueryBuilder.value c)) "")
      with (JsString.split_aux "," (JsString.trim (QueryBuilder.value c) ++ "") "")
      by now rewrite StringFacts.str_app_nil_r.
    rewrite TrimFacts.split_aux_app by (intros ch Hin ->; exact (Hno Hin)).
    cbn [map String.append]. cbv beta iota zeta.
    change (JsNumber.is_finite JsNumber.NaN) with false. rewrite orb_true_r.
    eexists; reflexivity.
  - intros a b rest Ha Hb Hrest Ht. rewrite Ht. unfold JsString.split.
    rewrite TrimFacts.split_aux_app by (intros ch Hin ->; exact (Ha Hin)).
    assert (Hs : exists tl, JsString.split_aux "," ("," ++ b ++ rest) ("" ++ a) = a :: b :: tl).
    { assert (E : JsString.split_aux "," ("," ++ b ++ rest) ("" ++ a)
                  = a :: JsString.split_aux "," rest b).
      { change ("," ++ b ++ rest) with (String "," (b ++ rest)).
        transitivity (a :: JsString.split_aux "," (b ++ rest) ""); [reflexivity|].
        rewrite TrimFacts.split_aux_app by (intros ch Hin ->; exact (Hb Hin)).
        reflexivity. }
      rewrite E. destruct Hrest as [-> | [more ->]]; [now exists []|].
      exists (JsString.split_aux "," more ""). reflexivity. }
    destruct Hs as [tl ->]. cbn [map]. cbv beta iota zeta.
    destruct (JsNumber.is_finite (JsNumber.of_string (JsString.trim a)));
      destruct (JsNumber.is_finite (JsNumber.of_string (JsString.trim b))); cbn [negb orb andb];
      reflexivity.
Qed.

Lemma geoPoint_two_parts_witness :
  let c := {| QueryBuilder.id := 3; QueryBuilder.field := "where";
              QueryBuilder.operator := QueryBuilder.Op_eq;
              QueryBuilder.value := " 1.5, 2 ,9"; QueryBuilder.valueType := QueryBuilder.VT_string |} in
  JsString.trim (QueryBuilder.value c) = "1.5" ++ "," ++ " 2 " ++ "," ++ "9"
  /\ QueryBuilder.parseWhereValue (QueryBuilder.with_valueType c QueryBuilder.VT_geoPoint)
     = Ok "GEOPT(1.5, 2)"
  /\ (exists msg, QueryBuilder.parseWhereValue
       (QueryBuilder.with_valueType (QueryBuilder.with_value c "1.5") QueryBuilder.VT_geoPoint)
       = Err msg).
Proof.
  intros c.
  assert (Ht : JsString.trim (QueryBuilder.value c) = "1.5" ++ "," ++ " 2 " ++ "," ++ "9")
    by reflexivity.
  split; [exact Ht|].
  split.
  - rewrite (proj2 (geoPoint_two_parts c) "1.5" " 2 " ("," ++ "9")
               ltac:(simpl; intuition discriminate) ltac:(simpl; intuition discriminate)
               ltac:(right; now exists "9") Ht).
    vm_compute. reflexivity.
  - apply (proj1 (geoPoint_two_parts (QueryBuilder.with_value c "1.5"))).
    simpl. intuition discriminate.
Defined.
